(** * Anythink Market: comment routes and string-case utilities

    A shallow embedding of
    - [backend/routes/api/comments.js]: the comments router
      ([router.get], [router.delete]) and the [toKebabCase] utility,
    - [few_shot_prompt.js]: [toCamelCase] and [addNumbers],
    - the unnamed utility file holding the documented [toCamelCase] and
      [toDotCase],
    together with the favorite/unfavorite and slug-creation operations of
    the catalog and the author-checked deletion of a comment, whose source
    files (the Mongoose models and the items router) are not part of the
    sources at hand.

    JavaScript strings are modelled as lists of code units.  The code unit
    type is [ascii], read as the code points U+0000..U+00FF: on that range
    [String.prototype.toLowerCase], the regular-expression class [\s] and
    [String.prototype.trim] are modelled exactly as ECMAScript defines
    them. *)

From Stdlib Require Import Ascii String List NArith ZArith Bool Lia.
From Stdlib Require PrimFloat.
From stdpp Require Import gmap strings list fin_maps.
Import ListNotations.

Local Open Scope char_scope.

(** ** Code units and character classes *)

Module Chars.

Definition jsstring := list ascii.

(** String literals of the examples. *)
Definition str (s : string) : jsstring := list_ascii_of_string s.

Definition code (c : ascii) : N := N_of_ascii c.

Definition in_range (lo hi : N) (c : ascii) : bool :=
  ((lo <=? code c) && (code c <=? hi))%N.

(** [[a-z]], [[A-Z]] and [[0-9]] of the regular expressions (no [i] or [u]
    flag: the ASCII ranges only). *)
Definition is_az (c : ascii) : bool := in_range 97 122 c.
Definition is_AZ (c : ascii) : bool := in_range 65 90 c.
Definition is_09 (c : ascii) : bool := in_range 48 57 c.

(** [\s]: WhiteSpace and LineTerminator of ECMAScript.  Below U+0100 these
    are TAB, LF, VT, FF, CR, SP and NBSP. *)
Definition is_space (c : ascii) : bool :=
  in_range 9 13 c || (code c =? 32)%N || (code c =? 160)%N.

Definition is_hyphen (c : ascii) : bool := (code c =? 45)%N.
Definition is_underscore (c : ascii) : bool := (code c =? 95)%N.
Definition is_dot (c : ascii) : bool := (code c =? 46)%N.

(** Letters of the Latin-1 supplement that have a lowercase form:
    U+00C0..U+00DE without the multiplication sign U+00D7. *)
Definition is_latin1_upper (c : ascii) : bool :=
  in_range 192 222 c && negb (code c =? 215)%N.

(** Letters of the Latin-1 supplement whose uppercase form is 32 below:
    U+00E0..U+00FE without the division sign U+00F7. *)
Definition is_latin1_lower (c : ascii) : bool :=
  in_range 224 254 c && negb (code c =? 247)%N.

(** [toLowerCase] on one code unit. *)
Definition toLowerChar (c : ascii) : ascii :=
  if is_AZ c || is_latin1_upper c then ascii_of_N (code c + 32) else c.

(** [toUpperCase] on one code unit; the result is a string because
    U+00DF (sharp s) becomes "SS".  The uppercase forms of U+00B5 and
    U+00FF lie beyond U+00FF and are outside this embedding: both are
    kept as they are. *)
Definition toUpperChar (c : ascii) : jsstring :=
  if is_az c || is_latin1_lower c then [ascii_of_N (code c - 32)]
  else if (code c =? 223)%N then ["S"; "S"]
  else [c].

(** [String.prototype.toLowerCase] and [String.prototype.toUpperCase]. *)
Definition toLowerCase (s : jsstring) : jsstring := map toLowerChar s.
Definition toUpperCase (s : jsstring) : jsstring := flat_map toUpperChar s.

(** All 256 code units, for exhaustive checks of character facts. *)
Definition all_chars : list ascii :=
  map (fun n => ascii_of_nat n) (seq 0 256).

End Chars.
Export Chars.

(** ** Regular-expression replacements as list functions *)

Module Regex.

(** Does the string begin with a character of the class [p]? *)
Definition starts_with (p : ascii -> bool) (s : jsstring) : bool :=
  match s with
  | c :: _ => p c
  | [] => false
  end.

(** [s.replace(/([a-z])([A-Z])/g, '$1-$2')]: scanning from the left, a
    lowercase letter directly followed by an uppercase letter is a match of
    two characters; the scan resumes after the match. *)
Fixpoint insert_camel_hyphens (s : jsstring) : jsstring :=
  match s with
  | [] => []
  | x :: tl =>
      match tl with
      | y :: rest =>
          if is_az x && is_AZ y
          then x :: "-" :: y :: insert_camel_hyphens rest
          else x :: insert_camel_hyphens tl
      | [] => [x]
      end
  end.

(** [s.replace(/[p]+/g, r)]: every maximal run of characters of the class
    [p] is replaced by [r] (emitted when the last character of the run is
    reached). *)
Fixpoint replace_runs (p : ascii -> bool) (r : jsstring) (s : jsstring)
  : jsstring :=
  match s with
  | [] => []
  | c :: tl =>
      if p c
      then if starts_with p tl then replace_runs p r tl
           else r ++ replace_runs p r tl
      else c :: replace_runs p r tl
  end.

(** The alternative [^[p]+] of a replacement by the empty string. *)
Fixpoint strip_leading (p : ascii -> bool) (s : jsstring) : jsstring :=
  match s with
  | [] => []
  | c :: tl => if p c then strip_leading p tl else s
  end.

(** The alternative [[p]+$] of a replacement by the empty string. *)
Fixpoint strip_trailing (p : ascii -> bool) (s : jsstring) : jsstring :=
  match s with
  | [] => []
  | c :: tl =>
      match strip_trailing p tl with
      | [] => if p c then [] else [c]
      | r => c :: r
      end
  end.

(** [s.replace(/^[p]+|[p]+$/g, '')]. *)
Definition strip_ends (p : ascii -> bool) (s : jsstring) : jsstring :=
  strip_trailing p (strip_leading p s).

(** [s.replace(/[p]/g, '')]. *)
Definition remove_all (p : ascii -> bool) (s : jsstring) : jsstring :=
  List.filter (fun c => negb (p c)) s.

(** [s.trim()]: the class stripped is that of [\s]. *)
Definition trim (s : jsstring) : jsstring := strip_ends is_space s.

(** Put [c] in front of the first piece of a split. *)
Definition cons_first (c : ascii) (ws : list jsstring) : list jsstring :=
  match ws with
  | w :: rest => (c :: w) :: rest
  | [] => [[c]]
  end.

(** [s.split(/[p]+/)]: the pieces between the maximal runs of [p]; a run at
    the start gives a leading empty piece, a run at the end a trailing
    one, and the empty string gives one empty piece. *)
Fixpoint split (p : ascii -> bool) (s : jsstring) : list jsstring :=
  match s with
  | [] => [[]]
  | c :: tl =>
      if p c
      then if starts_with p tl then split p tl else [] :: split p tl
      else cons_first c (split p tl)
  end.

(** [ws.join(d)]. *)
Fixpoint join (d : jsstring) (ws : list jsstring) : jsstring :=
  match ws with
  | [] => []
  | w :: rest =>
      match rest with
      | [] => w
      | _ :: _ => w ++ d ++ join d rest
      end
  end.

End Regex.
Export Regex.

(** ** [toKebabCase] (backend/routes/api/comments.js) *)

Module Kebab.

(** [[\s_]] *)
Definition is_space_or_underscore (c : ascii) : bool :=
  is_space c || is_underscore c.

(** The function is only defined on strings: any other argument throws
    before the first step, which the type of the argument accounts for. *)
Definition toKebabCase (s : jsstring) : jsstring :=
  (* Step 1: hyphens before uppercase letters *)
  let result := insert_camel_hyphens s in
  (* Step 2: lowercase *)
  let result := toLowerCase result in
  (* Step 3: spaces and underscores to hyphens *)
  let result := replace_runs is_space_or_underscore ["-"] result in
  (* Step 4: leading and trailing hyphens *)
  let result := strip_ends is_hyphen result in
  (* Step 5: runs of hyphens *)
  replace_runs is_hyphen ["-"] result.

End Kebab.
Export Kebab.

(** ** [toCamelCase] (few_shot_prompt.js) *)

(** [words.map((word, index) => f word index)] *)
Fixpoint mapi_from {A B : Type} (f : A -> nat -> B) (index : nat) (l : list A)
  : list B :=
  match l with
  | [] => []
  | x :: rest => f x index :: mapi_from f (S index) rest
  end.

Definition mapi {A B : Type} (f : A -> nat -> B) (l : list A) : list B :=
  mapi_from f 0 l.

(** [w.charAt(0)] and [w.slice(1)] *)
Definition charAt0 (w : jsstring) : jsstring :=
  match w with
  | c :: _ => [c]
  | [] => []
  end.

Definition slice1 (w : jsstring) : jsstring := tl w.

(** The callback of [words.map] shared by both [toCamelCase] functions:
    the word is lowercased; every word but the first gets its first
    character uppercased. *)
Definition camel_word (word : jsstring) (index : nat) : jsstring :=
  let lowerWord := toLowerCase word in
  if (index =? 0)%nat then lowerWord
  else toUpperCase (charAt0 lowerWord) ++ slice1 lowerWord.

Module FewShot.

(** [[\s_-]]: whitespace, underscore, hyphen. *)
Definition is_separator (c : ascii) : bool :=
  is_space c || is_underscore c || is_hyphen c.

Definition toCamelCase (s : jsstring) : jsstring :=
  let words := split is_separator s in
  join [] (mapi camel_word words).

End FewShot.

(** ** [toCamelCase] and [toDotCase] (string utilities with input checks) *)

Module CaseUtils.

(** [[\s_\-.]]: whitespace, underscore, hyphen, dot. *)
Definition is_separator (c : ascii) : bool :=
  is_space c || is_underscore c || is_hyphen c || is_dot c.

(** [[a-zA-Z0-9\s_\-.]]: what the cleaning step keeps. *)
Definition is_kept (c : ascii) : bool :=
  is_az c || is_AZ c || is_09 c || is_separator c.

(** [!s] on a string: true exactly for the empty string. *)
Definition is_empty (s : jsstring) : bool :=
  match s with
  | [] => true
  | _ :: _ => false
  end.

(** [word => word.length > 0] *)
Definition has_length (word : jsstring) : bool := (0 <? length word)%nat.

(** Anything but a string makes the function throw before its first
    step; the type of the argument accounts for that. *)
Definition toCamelCase (s : jsstring) : jsstring :=
  (* empty strings or strings with only separators *)
  if is_empty (trim s) || is_empty (remove_all is_separator s) then []
  else
    (* remove special characters *)
    let cleaned := remove_all (fun c => negb (is_kept c)) s in
    (* remove leading and trailing separators *)
    let cleaned := strip_ends is_separator cleaned in
    (* split by runs of separators, drop empty words *)
    let words := List.filter has_length (split is_separator cleaned) in
    if (length words =? 0)%nat then []
    else join [] (mapi camel_word words).

Definition toDotCase (s : jsstring) : jsstring :=
  (* empty strings or strings with only separators *)
  if is_empty (trim s) || is_empty (remove_all is_separator s) then []
  else
    (* remove special characters *)
    let cleaned := remove_all (fun c => negb (is_kept c)) s in
    (* remove leading and trailing separators *)
    let cleaned := strip_ends is_separator cleaned in
    (* split by runs of separators, drop empty words *)
    let words := List.filter has_length (split is_separator cleaned) in
    if (length words =? 0)%nat then []
    else join ["."] (map toLowerCase words).

(** The list of words both functions compute on their way. *)
Definition words_of (s : jsstring) : list jsstring :=
  List.filter has_length
    (split is_separator
       (strip_ends is_separator (remove_all (fun c => negb (is_kept c)) s))).

End CaseUtils.

(** ** The comments router (backend/routes/api/comments.js) *)

Module Comments.

Record Error := { message : string }.

(** A promise that has settled. *)
Inductive outcome (A : Type) : Type :=
| Resolved (a : A)
| Rejected (err : Error).
Arguments Resolved {A} a.
Arguments Rejected {A} err.

Record Comment := {
  _id : nat;
  body : string;
  author : nat;
  item : nat
}.

(** The Comment collection: its documents in insertion order, and the
    error with which the next call on it is rejected, if the store is
    unavailable (connection lost, ill-formed id, ...). *)
Record Db := {
  docs : list Comment;
  fault : option Error
}.

Definition has_id (id : nat) (c : Comment) : bool := (_id c =? id)%nat.

(** [Comment.find()] *)
Definition Comment_find (db : Db) : outcome (list Comment) :=
  match fault db with
  | Some err => Rejected err
  | None => Resolved (docs db)
  end.

Fixpoint remove_first (id : nat) (cs : list Comment) : list Comment :=
  match cs with
  | [] => []
  | c :: rest => if has_id id c then rest else c :: remove_first id rest
  end.

(** [Comment.findByIdAndDelete(id)]: resolves with the deleted document,
    or with [null] when no document has this id. *)
Definition Comment_findByIdAndDelete (id : nat) (db : Db)
  : Db * outcome (option Comment) :=
  match fault db with
  | Some err => (db, Rejected err)
  | None =>
      match List.find (has_id id) (docs db) with
      | Some c => ({| docs := remove_first id (docs db); fault := None |},
                   Resolved (Some c))
      | None => (db, Resolved None)
      end
  end.

Inductive Json :=
| JNone
| JError (error : string)
| JComments (comments : list Comment).

Record Response := { status : nat; sent : Json }.

(** The request as the handlers can see it: the route parameter [:id] and
    the identity an authentication middleware would have stored in
    [req.payload].  The router mounts no such middleware and no handler
    reads the field. *)
Record Request := {
  params_id : nat;
  payload : option nat
}.

(** [router.get("/")] *)
Definition router_get (db : Db) (req : Request) : Db * Response :=
  match Comment_find db with
  | Resolved comments => (db, {| status := 200; sent := JComments comments |})
  | Rejected err =>
      (db, {| status := 500; sent := JError "Failed to fetch comments" |})
  end.

(** [router.delete("/:id")] *)
Definition router_delete (db : Db) (req : Request) : Db * Response :=
  match Comment_findByIdAndDelete (params_id req) db with
  | (db', Resolved comment) =>
      match comment with
      | None => (db', {| status := 404; sent := JError "Comment not found" |})
      | Some _ => (db', {| status := 204; sent := JNone |})
      end
  | (db', Rejected err) =>
      (db', {| status := 500; sent := JError "Failed to delete comment" |})
  end.

End Comments.

(** ** The catalog: favorites and slugs *)

Module Catalog.

(** Modelled from the spec: the persistent state behind [favorite] and
    [unfavorite] (the User and Item models and the items router are
    missing from the sources).  Each User has a [favorites] set of Item
    identities; each Item has a [favoritesCount].  The Item is addressed
    by its identity: resolving a slug to its Item is a plain lookup. *)
Record State := {
  favorites : gmap nat (gset nat);
  favoritesCount : gmap nat nat
}.

(** Modelled from the spec: [favorite(userId, slug)] (missing from the
    sources).  Re-favoriting is a no-op; on the first favorite the Item
    is added to the User's [favorites] set and [favoritesCount] is
    incremented, both in one step. *)
Definition favorite (user item : nat) (st : State) : State :=
  match favorites st !! user, favoritesCount st !! item with
  | Some favs, Some count =>
      if decide (item ∈ favs) then st
      else {| favorites := <[user := {[item]} ∪ favs]> (favorites st);
              favoritesCount := <[item := S count]> (favoritesCount st) |}
  | _, _ => st
  end.

(** Modelled from the spec: [unfavorite(userId, slug)] (missing from the
    sources), the reverse of [favorite]: a no-op when the Item is not in
    the set; otherwise the Item leaves the set and the count is
    decremented, both in one step. *)
Definition unfavorite (user item : nat) (st : State) : State :=
  match favorites st !! user, favoritesCount st !! item with
  | Some favs, Some count =>
      if decide (item ∈ favs)
      then {| favorites := <[user := favs ∖ {[item]}]> (favorites st);
              favoritesCount := <[item := pred count]> (favoritesCount st) |}
      else st
  | _, _ => st
  end.

(** The requests that reach the two operations. *)
Inductive operation :=
| Favorite (user item : nat)
| Unfavorite (user item : nat).

Definition step (st : State) (op : operation) : State :=
  match op with
  | Favorite user item => favorite user item st
  | Unfavorite user item => unfavorite user item st
  end.

(** A sequence of operations, each applied as one atomic unit. *)
Definition run (ops : list operation) (st : State) : State :=
  fold_left step ops st.

(** The number of Users whose [favorites] set contains the Item. *)
Definition favorited_by (item : nat) (st : State) : nat :=
  size (filter (fun entry : nat * gset nat => item ∈ entry.2) (favorites st)).

(** The invariant of the Item: the count of every Item is the number of
    Users that favorited it. *)
Definition consistent (st : State) : Prop :=
  forall item count,
    favoritesCount st !! item = Some count -> count = favorited_by item st.

(** ASCII letters and digits: the alphanumeric characters of a slug. *)
Definition is_alphanumeric (c : ascii) : bool := is_az c || is_AZ c || is_09 c.

(** Modelled from the spec: the slug normalization policy of [createItem]
    (the Item model is missing from the sources): lowercase; insert no
    word boundary beyond the title's own whitespace and punctuation;
    collapse runs of non-alphanumeric characters to a single hyphen; strip
    leading and trailing hyphens. *)
Definition normalize_title (title : jsstring) : jsstring :=
  strip_ends is_hyphen
    (replace_runs (fun c => negb (is_alphanumeric c)) ["-"]
       (toLowerCase title)).

(** Modelled from the spec: the last step of the policy (missing from the
    sources): if the title is empty after normalization, a generated
    random token is substituted.  [token] is the draw of the generator. *)
Definition slug_base (title token : jsstring) : jsstring :=
  match normalize_title title with
  | [] => token
  | _ :: _ => normalize_title title
  end.

(** Modelled from the spec: the retries of [createItem] (the Item model
    is missing from the sources).  When the normalized title collides with
    a slug already taken, a hyphen and a short random disambiguator are
    appended, and generation is retried until the slug is unique.
    [suffixes] are the successive draws of the random
    generator; running out of them is the [Conflict] after the bounded
    number of retries. *)
Fixpoint disambiguate (taken : list jsstring) (base : jsstring)
  (suffixes : list jsstring) : option jsstring :=
  match suffixes with
  | [] => None
  | suffix :: rest =>
      let candidate := base ++ "-" :: suffix in
      if bool_decide (candidate ∈ taken) then disambiguate taken base rest
      else Some candidate
  end.

(** Modelled from the spec: the slug [createItem] gives a new Item (the
    Item model is missing from the sources): the title normalized by the
    policy, or the token when that is empty, disambiguated when [taken]
    has it. *)
Definition createItem_slug (taken : list jsstring) (title token : jsstring)
  (suffixes : list jsstring) : option jsstring :=
  let base := slug_base title token in
  if bool_decide (base ∈ taken) then disambiguate taken base suffixes
  else Some base.

End Catalog.

(** ** Shapes of strings used in the statements *)

Module Shape.

(** Is the string empty? *)
Definition is_nil_b (s : jsstring) : bool :=
  match s with
  | [] => true
  | _ :: _ => false
  end.

(** Does the string end with a character of the class [p]? *)
Fixpoint ends_with (p : ascii -> bool) (s : jsstring) : bool :=
  match s with
  | [] => false
  | c :: tl =>
      match tl with
      | [] => p c
      | _ :: _ => ends_with p tl
      end
  end.

(** No two hyphens next to each other. *)
Fixpoint no_double_hyphen (s : jsstring) : bool :=
  match s with
  | [] => true
  | c :: tl =>
      negb (is_hyphen c && starts_with is_hyphen tl) && no_double_hyphen tl
  end.

(** A lowercase letter directly followed by an uppercase letter. *)
Fixpoint has_camel_transition (s : jsstring) : bool :=
  match s with
  | [] => false
  | x :: tl => (is_az x && starts_with is_AZ tl) || has_camel_transition tl
  end.

(** A character that [toLowerCase] leaves as it is. *)
Definition is_lowered (c : ascii) : bool := Ascii.eqb (toLowerChar c) c.

(** Lowercase ASCII letter or digit. *)
Definition is_lower_alnum (c : ascii) : bool := is_az c || is_09 c.

(** ASCII letter or digit. *)
Definition is_alnum (c : ascii) : bool := is_az c || is_AZ c || is_09 c.

(** What [toKebabCase] guarantees of its result: nothing left to
    lowercase, no whitespace, no underscore, no hyphen at either end and no
    two hyphens in a row. *)
Definition kebab_shape (s : jsstring) : bool :=
  forallb (fun c => is_lowered c && negb (is_space_or_underscore c)) s
  && negb (starts_with is_hyphen s)
  && negb (ends_with is_hyphen s)
  && no_double_hyphen s.


(** A word with respect to the separators [p]: not empty and free of
    separators. *)
Definition word_ok (p : ascii -> bool) (w : jsstring) : Prop :=
  w <> [] /\ forallb (fun c => negb (p c)) w = true.

End Shape.
Export Shape.

Module Titles.

(** A word boundary of a title for [toKebabCase]: whitespace, underscore
    or hyphen. *)
Definition is_boundary (c : ascii) : bool :=
  is_space c || is_underscore c || is_hyphen c.

(** ASCII letters, digits and word boundaries. *)
Definition is_title_char (c : ascii) : bool := is_alnum c || is_boundary c.

End Titles.
Export Titles.

(** ** Concrete stores and requests for the examples *)

Module Samples.

Import Comments.

(** A comment written by user 1 on item 3. *)
Definition comment_of_user1 : Comment :=
  {| _id := 7; body := "nice lamp"; author := 1; item := 3 |}.

Definition one_comment : Db :=
  {| docs := [comment_of_user1]; fault := None |}.

Definition connection_refused : Error :=
  {| message := "connection refused" |}.

Definition unavailable : Db :=
  {| docs := [comment_of_user1]; fault := Some connection_refused |}.

(** Requests naming comment 7: by user 2, and without identity. *)
Definition request_of_user2 : Request :=
  {| params_id := 7; payload := Some 2 |}.

Definition anonymous_request : Request :=
  {| params_id := 7; payload := None |}.

(** Two users without favorites and one item that nobody favorited. *)
Definition fresh_catalog : Catalog.State :=
  {| Catalog.favorites := {[ 1 := ∅; 2 := ∅ ]};
     Catalog.favoritesCount := {[ 10 := 0 ]} |}.

Definition some_operations : list Catalog.operation :=
  [Catalog.Favorite 1 10; Catalog.Favorite 2 10; Catalog.Favorite 1 10;
   Catalog.Unfavorite 2 10; Catalog.Unfavorite 2 10].

End Samples.

(** ** [addNumbers] (few_shot_prompt.js) *)

Module Numbers.

(** The values a caller can pass.  Numbers are IEEE 754 doubles.  A
    function or an object carries whether its conversion to a string
    completes ([printable]): it does not for an object without [toString]
    and [valueOf], or when these throw. *)
Inductive value :=
| VUndefined
| VNull
| VBoolean (b : bool)
| VNumber (x : PrimFloat.float)
| VString (s : string)
| VBigInt (z : Z)
| VSymbol
| VFunction (printable : bool)
| VObject (printable : bool).

(** [typeof v] *)
Definition typeof (v : value) : string :=
  match v with
  | VUndefined => "undefined"
  | VNull => "object"
  | VBoolean _ => "boolean"
  | VNumber _ => "number"
  | VString _ => "string"
  | VBigInt _ => "bigint"
  | VSymbol => "symbol"
  | VFunction _ => "function"
  | VObject _ => "object"
  end.

(** [v === null] and [v === undefined] *)
Definition is_null (v : value) : bool :=
  match v with VNull => true | _ => false end.

Definition is_undefined (v : value) : bool :=
  match v with VUndefined => true | _ => false end.

(** Does [${v}] inside a template literal complete?  A Symbol makes it
    throw a TypeError. *)
Definition prints (v : value) : bool :=
  match v with
  | VSymbol => false
  | VFunction printable => printable
  | VObject printable => printable
  | _ => true
  end.

(** The errors of [addNumbers].  The three it creates come with the
    values their message template prints: [a] and [b] for the first,
    [typeof a] and [typeof b] for the second, the two numbers for the
    third; how a value is printed inside the message is not modelled.
    The fourth is the error raised while the first message is built, when
    [a] or [b] cannot be converted to a string. *)
Inductive error :=
| NullOrUndefined (a b : value)
| NotNumbers (type_a type_b : string)
| NaNNotAllowed (a b : PrimFloat.float)
| MessageNotBuilt.

Inductive result :=
| Returned (sum : PrimFloat.float)
| Thrown (e : error).

Definition addNumbers (a b : value) : result :=
  (* null or undefined *)
  if is_null a || is_undefined a || is_null b || is_undefined b
  then
    (* the message prints a, then b *)
    if prints a && prints b then Thrown (NullOrUndefined a b)
    else Thrown MessageNotBuilt
  (* both inputs are numbers *)
  else if negb (String.eqb (typeof a) "number")
          || negb (String.eqb (typeof b) "number")
  then Thrown (NotNumbers (typeof a) (typeof b))
  else
    match a, b with
    | VNumber x, VNumber y =>
        (* NaN values *)
        if PrimFloat.is_nan x || PrimFloat.is_nan y
        then Thrown (NaNNotAllowed x y)
        else Returned (PrimFloat.add x y)
    | _, _ =>
        (* not reached: [typeof] is "number" for numbers only *)
        Thrown (NotNumbers (typeof a) (typeof b))
    end.

End Numbers.

(** ** Further shapes and relations used in the statements *)

Module Shape2.

(** No two characters of the class [p] next to each other. *)
Fixpoint no_adjacent (p : ascii -> bool) (s : jsstring) : bool :=
  match s with
  | [] => true
  | c :: tl => negb (p c && starts_with p tl) && no_adjacent p tl
  end.

(** Lowercase alphanumeric runs separated by single dots, no dot at
    either end. *)
Definition dot_shape (s : jsstring) : bool :=
  forallb (fun c => is_lower_alnum c || is_dot c) s
  && negb (starts_with is_dot s)
  && negb (ends_with is_dot s)
  && no_adjacent is_dot s.

(** Two characters that are the same for [toKebabCase]: equal, or both a
    word boundary (whitespace, underscore, hyphen). *)
Definition same_or_boundary (c d : ascii) : Prop :=
  c = d \/ (is_boundary c = true /\ is_boundary d = true).

End Shape2.
Export Shape2.

(** ** More stores for the examples *)

Module Samples2.

Import Comments.

Definition comment_of_user2 : Comment :=
  {| _id := 8; body := "how much?"; author := 2; item := 3 |}.

Definition comment_of_user3 : Comment :=
  {| _id := 9; body := "sold"; author := 3; item := 4 |}.

Definition three_comments : Db :=
  {| docs := [Samples.comment_of_user1; comment_of_user2; comment_of_user3];
     fault := None |}.

(** A request naming comment 8. *)
Definition request_for_8 : Request :=
  {| params_id := 8; payload := None |}.

(** A request naming a comment that does not exist. *)
Definition request_for_42 : Request :=
  {| params_id := 42; payload := Some 1 |}.

End Samples2.

Module Shape3.

(** A word of at least two lowercase ASCII letters. *)
Definition letter_word (w : jsstring) : Prop :=
  2 <= length w /\ forallb is_az w = true.

End Shape3.
Export Shape3.

(** ** The discussion graph: deleting a comment as its author *)

Module Discussion.

Import Comments.

(** Modelled from the spec: the ways [deleteComment] fails (the items
    router with the author-checked route is missing from the sources). *)
Inductive failure :=
| Forbidden
| NotFound.

Inductive answer :=
| Deleted
| Failed (f : failure).

(** Modelled from the spec: [deleteComment(requestorId, commentId)] (the
    route [DELETE /api/items/:slug/comments/:id] of the items router is
    missing from the sources): it fails with [Forbidden] unless
    [requestorId == comment.author], and no state change occurs then.
    The route of the comments router, [router_delete], is the separate
    path without the ownership check.  For a comment that does not exist
    the specification names no answer; [NotFound] of its error taxonomy is
    taken. *)
Definition deleteComment (requestorId commentId : nat)
  (comments : list Comment) : list Comment * answer :=
  match List.find (has_id commentId) comments with
  | None => (comments, Failed NotFound)
  | Some comment =>
      if (requestorId =? author comment)%nat
      then (remove_first commentId comments, Deleted)
      else (comments, Failed Forbidden)
  end.

End Discussion.

Module AsciiCase.

(** The lowercase form of an uppercase ASCII letter; any other character
    as it is. *)
Definition toAsciiLower (c : ascii) : ascii :=
  if is_AZ c then ascii_of_N (code c + 32) else c.

End AsciiCase.
Export AsciiCase.

(** * Properties *)

Lemma all_chars_complete (c : ascii) : In c all_chars.
Proof.
  unfold all_chars. apply in_map_iff. exists (nat_of_ascii c). split.
  - apply ascii_nat_embedding.
  - apply in_seq. pose proof (nat_ascii_bounded c). lia.
Qed.

Lemma forall_chars (P : ascii -> bool) :
  forallb P all_chars = true -> forall c, P c = true.
Proof.
  intros H c. rewrite forallb_forall in H. apply H, all_chars_complete.
Qed.


Example kebab_example_string :
  toKebabCase (str "Example String") = str "example-string".
Proof. reflexivity. Qed.

Example kebab_camel :
  toKebabCase (str "camelCaseExample") = str "camel-case-example".
Proof. reflexivity. Qed.

Example kebab_constant :
  toKebabCase (str "CONSTANT_VALUE") = str "constant-value".
Proof. reflexivity. Qed.

Example kebab_trim :
  toKebabCase (str "  leading and trailing  ") = str "leading-and-trailing".
Proof. reflexivity. Qed.

Example kebab_multiple :
  toKebabCase (str "multiple  spaces") = str "multiple-spaces".
Proof. reflexivity. Qed.

(** The expected outputs listed next to the two [toCamelCase] functions
    and [toDotCase]. *)

Example few_shot_screen_name :
  FewShot.toCamelCase (str "SCREEN_NAME") = str "screenName".
Proof. reflexivity. Qed.

Example few_shot_hello_world_test :
  FewShot.toCamelCase (str "hello world test") = str "helloWorldTest".
Proof. reflexivity. Qed.

Example camel_user_id_123 :
  CaseUtils.toCamelCase (str "user_id_123") = str "userId123".
Proof. reflexivity. Qed.

Example camel_mixed :
  CaseUtils.toCamelCase (str "mixed.separators-styles_all")
  = str "mixedSeparatorsStylesAll".
Proof. reflexivity. Qed.

Example camel_special :
  CaseUtils.toCamelCase (str "hello@world!test") = str "helloworldtest".
Proof. reflexivity. Qed.

Example camel_empty : CaseUtils.toCamelCase (str "") = str "".
Proof. reflexivity. Qed.

Example dot_api_key_name :
  CaseUtils.toDotCase (str "API.KEY.NAME") = str "api.key.name".
Proof. reflexivity. Qed.

Example dot_leading :
  CaseUtils.toDotCase (str "___leading-underscore") = str "leading.underscore".
Proof. reflexivity. Qed.

(** ** Facts on code units, checked on all 256 of them *)

Ltac by_all_chars :=
  match goal with
  | |- forall c : ascii, @?P c = true => apply (forall_chars P)
  end; vm_compute; reflexivity.

Lemma lower_is_lowered c : is_lowered (toLowerChar c) = true.
Proof. revert c. by_all_chars. Qed.

Lemma lower_not_AZ c : is_AZ (toLowerChar c) = false.
Proof.
  apply negb_true_iff. revert c. by_all_chars.
Qed.

Lemma lowered_not_AZ c : is_lowered c = true -> is_AZ c = false.
Proof.
  intros H. apply Ascii.eqb_eq in H. rewrite <- H. apply lower_not_AZ.
Qed.

Lemma lower_space c : is_space (toLowerChar c) = is_space c.
Proof.
  apply eqb_prop. revert c. by_all_chars.
Qed.

Lemma lower_underscore c : is_underscore (toLowerChar c) = is_underscore c.
Proof.
  apply eqb_prop. revert c. by_all_chars.
Qed.

Lemma lower_hyphen c : is_hyphen (toLowerChar c) = is_hyphen c.
Proof.
  apply eqb_prop. revert c. by_all_chars.
Qed.

Lemma lower_dot c : is_dot (toLowerChar c) = is_dot c.
Proof.
  apply eqb_prop. revert c. by_all_chars.
Qed.

Lemma is_hyphen_eq c : is_hyphen c = true -> c = "-".
Proof.
  intros H. apply Ascii.eqb_eq. revert H. apply implb_true_iff.
  revert c. by_all_chars.
Qed.

(** ** The replacement functions *)

Section Replacements.

Variable p : ascii -> bool.

Lemma starts_with_forallb_neg s :
  forallb (fun c => negb (p c)) s = true -> starts_with p s = false.
Proof.
  destruct s as [|c tl]; simpl; [reflexivity|].
  intros [H _]%andb_true_iff. now apply negb_true_iff.
Qed.

Lemma replace_runs_In r s c :
  In c (replace_runs p r s) -> In c r \/ (In c s /\ p c = false).
Proof.
  induction s as [|x tl IH]; simpl; [tauto|].
  destruct (p x) eqn:Hx.
  - destruct (starts_with p tl).
    + intros H. destruct (IH H) as [|[? ?]]; auto.
    + rewrite in_app_iff. intros [H|H]; [auto|].
      destruct (IH H) as [|[? ?]]; auto.
  - simpl. intros [<-|H]; [auto|].
    destruct (IH H) as [|[? ?]]; auto.
Qed.

Lemma replace_runs_id r s :
  forallb (fun c => negb (p c)) s = true -> replace_runs p r s = s.
Proof.
  induction s as [|x tl IH]; simpl; [reflexivity|].
  intros [Hx Htl]%andb_true_iff. apply negb_true_iff in Hx.
  rewrite Hx. f_equal. auto.
Qed.

Lemma replace_runs_nil r s :
  r <> [] -> replace_runs p r s = [] -> s = [].
Proof.
  intros Hr. induction s as [|x tl IH]; simpl; [reflexivity|].
  destruct (p x); [|discriminate].
  destruct (starts_with p tl) eqn:Hs.
  - intros H. apply IH in H. subst tl. discriminate.
  - destruct r; [congruence|discriminate].
Qed.

Lemma replace_runs_starts q r s :
  (forall c, q c = true -> p c = true) ->
  starts_with p s = false ->
  starts_with q (replace_runs p r s) = false.
Proof.
  intros Hq. destruct s as [|x tl]; simpl; [reflexivity|].
  intros Hx. rewrite Hx. simpl. destruct (q x) eqn:E; [|reflexivity].
  apply Hq in E. congruence.
Qed.

Lemma strip_leading_In s c : In c (strip_leading p s) -> In c s.
Proof.
  induction s as [|x tl IH]; simpl; [tauto|].
  destruct (p x); simpl; auto.
Qed.

Lemma strip_leading_starts s : starts_with p (strip_leading p s) = false.
Proof.
  induction s as [|x tl IH]; simpl; [reflexivity|].
  destruct (p x) eqn:Hx; [assumption|]. simpl. assumption.
Qed.

Lemma strip_leading_id s : starts_with p s = false -> strip_leading p s = s.
Proof.
  destruct s as [|x tl]; simpl; [reflexivity|]. now intros ->.
Qed.

Lemma strip_leading_all s :
  forallb p s = true -> strip_leading p s = [].
Proof.
  induction s as [|x tl IH]; simpl; [reflexivity|].
  intros [-> H]%andb_true_iff. auto.
Qed.

Lemma strip_trailing_cons c tl :
  strip_trailing p (c :: tl) =
  if is_nil_b (strip_trailing p tl) && p c then []
  else c :: strip_trailing p tl.
Proof.
  simpl. destruct (strip_trailing p tl); simpl; [|reflexivity].
  destruct (p c); reflexivity.
Qed.

Lemma strip_trailing_In s c : In c (strip_trailing p s) -> In c s.
Proof.
  revert c. induction s as [|x tl IH]; intros c; [simpl; tauto|].
  rewrite strip_trailing_cons.
  destruct (is_nil_b (strip_trailing p tl) && p x); simpl; [tauto|].
  intros [?|?]; auto.
Qed.

Lemma strip_trailing_ends s : ends_with p (strip_trailing p s) = false.
Proof.
  induction s as [|x tl IH]; [reflexivity|].
  simpl. destruct (strip_trailing p tl) as [|y r] eqn:E.
  - destruct (p x) eqn:Hx; simpl; auto.
  - exact IH.
Qed.

Lemma strip_trailing_id s : ends_with p s = false -> strip_trailing p s = s.
Proof.
  induction s as [|x tl IH]; [reflexivity|].
  simpl. destruct tl as [|y r].
  - simpl. now intros ->.
  - intros H. rewrite (IH H). reflexivity.
Qed.

Lemma strip_trailing_starts q s :
  starts_with q s = false -> starts_with q (strip_trailing p s) = false.
Proof.
  destruct s as [|x tl]; [reflexivity|].
  rewrite strip_trailing_cons.
  destruct (is_nil_b (strip_trailing p tl) && p x); simpl; auto.
Qed.

Lemma strip_trailing_nil s :
  strip_trailing p s = [] -> forallb p s = true.
Proof.
  induction s as [|x tl IH]; [reflexivity|].
  rewrite strip_trailing_cons. simpl.
  destruct (strip_trailing p tl); simpl; [|discriminate].
  destruct (p x); [auto|discriminate].
Qed.

Lemma strip_ends_all s : forallb p s = true -> strip_ends p s = [].
Proof.
  intros H. unfold strip_ends. now rewrite strip_leading_all.
Qed.

Lemma strip_ends_id s :
  starts_with p s = false -> ends_with p s = false -> strip_ends p s = s.
Proof.
  intros H1 H2. unfold strip_ends.
  rewrite strip_leading_id by assumption. now apply strip_trailing_id.
Qed.

Lemma ends_with_cons c s :
  s <> [] -> ends_with p (c :: s) = ends_with p s.
Proof.
  destruct s; [congruence|reflexivity].
Qed.

Lemma ends_with_forallb_neg s :
  forallb (fun c => negb (p c)) s = true -> ends_with p s = false.
Proof.
  induction s as [|x tl IH]; [reflexivity|].
  simpl. intros [Hx H]%andb_true_iff. destruct tl; [|auto].
  now apply negb_true_iff.
Qed.

End Replacements.

(** ** Runs collapsed to one character *)

Section Collapse.

Variable p : ascii -> bool.
Variable d : ascii.

Lemma replace_runs_ends s :
  ends_with p s = false -> ends_with p (replace_runs p [d] s) = false.
Proof.
  induction s as [|x tl IH]; [reflexivity|].
  destruct tl as [|y r].
  - simpl. intros Hx. rewrite Hx. simpl. exact Hx.
  - intros H. change (ends_with p (y :: r) = false) in H.
    specialize (IH H).
    assert (Hne : replace_runs p [d] (y :: r) <> []).
    { intros E. apply replace_runs_nil in E; discriminate. }
    change (replace_runs p [d] (x :: y :: r)) with
      (if p x
       then if p y then replace_runs p [d] (y :: r)
            else [d] ++ replace_runs p [d] (y :: r)
       else x :: replace_runs p [d] (y :: r)).
    destruct (p x); [destruct (p y)|]; trivial;
      simpl app; now rewrite ends_with_cons.
Qed.

Lemma replace_runs_only s :
  forallb (fun c => p c || Ascii.eqb c d) s = true ->
  forallb (fun c => Ascii.eqb c d) (replace_runs p [d] s) = true.
Proof.
  induction s as [|x tl IH]; [reflexivity|].
  simpl. intros [Hx H]%andb_true_iff. specialize (IH H).
  destruct (p x); simpl in *.
  - destruct (starts_with p tl); simpl; [assumption|].
    now rewrite Ascii.eqb_refl.
  - now rewrite Hx.
Qed.

Lemma replace_runs_keeps s c :
  In c s -> p c = true \/ In c (replace_runs p [d] s).
Proof.
  induction s as [|x tl IH]; simpl; [tauto|].
  intros [->|H].
  - destruct (p c) eqn:E; [auto|]. right. now left.
  - destruct (IH H) as [?|?]; [auto|]. right.
    destruct (p x); [destruct (starts_with p tl)|]; simpl; auto.
Qed.

End Collapse.

Lemma collapse_no_double s :
  no_double_hyphen (replace_runs is_hyphen ["-"] s) = true.
Proof.
  induction s as [|x tl IH]; [reflexivity|].
  simpl. destruct (is_hyphen x) eqn:Hx.
  - destruct (starts_with is_hyphen tl) eqn:Hs; [assumption|].
    simpl. rewrite IH.
    rewrite (replace_runs_starts is_hyphen is_hyphen) by auto.
    reflexivity.
  - simpl. now rewrite Hx, IH.
Qed.

Lemma collapse_id s :
  no_double_hyphen s = true -> replace_runs is_hyphen ["-"] s = s.
Proof.
  induction s as [|x tl IH]; [reflexivity|].
  simpl. intros [Hx H]%andb_true_iff. rewrite (IH H).
  destruct (is_hyphen x) eqn:E; [|reflexivity].
  simpl in Hx. apply negb_true_iff in Hx. rewrite Hx.
  now rewrite (is_hyphen_eq x E).
Qed.

(** ** Step 1 of [toKebabCase] *)

Lemma insert_camel_hyphens_cons x tl :
  insert_camel_hyphens (x :: tl) =
  if is_az x && starts_with is_AZ tl
  then x :: "-" :: insert_camel_hyphens tl
  else x :: insert_camel_hyphens tl.
Proof.
  destruct tl as [|y rest]; simpl.
  - now rewrite andb_false_r.
  - destruct (is_az x && is_AZ y) eqn:E; [|reflexivity].
    do 2 f_equal. destruct rest as [|z r]; [reflexivity|].
    assert (is_az y = false) as ->; [|reflexivity].
    apply andb_true_iff in E as [_ E]. apply negb_true_iff.
    revert E. apply implb_true_iff. revert y. by_all_chars.
Qed.

Lemma insert_camel_hyphens_In s c :
  In c (insert_camel_hyphens s) -> c = "-" \/ In c s.
Proof.
  induction s as [|x tl IH]; [simpl; tauto|].
  rewrite insert_camel_hyphens_cons.
  destruct (is_az x && starts_with is_AZ tl); simpl;
    intros H; decompose [or] H; auto;
    destruct (IH ltac:(assumption)); auto.
Qed.

Lemma insert_camel_hyphens_keeps s c :
  In c s -> In c (insert_camel_hyphens s).
Proof.
  induction s as [|x tl IH]; [simpl; tauto|].
  rewrite insert_camel_hyphens_cons.
  destruct (is_az x && starts_with is_AZ tl); simpl; intros [?|?]; auto.
Qed.

Lemma insert_camel_hyphens_id s :
  has_camel_transition s = false -> insert_camel_hyphens s = s.
Proof.
  induction s as [|x tl IH]; [reflexivity|].
  rewrite insert_camel_hyphens_cons. simpl.
  intros [-> H]%orb_false_iff. now rewrite (IH H).
Qed.

Lemma no_AZ_no_camel_transition s :
  forallb (fun c => negb (is_AZ c)) s = true -> has_camel_transition s = false.
Proof.
  induction s as [|x tl IH]; [reflexivity|].
  simpl. intros [_ H]%andb_true_iff.
  rewrite (IH H), (starts_with_forallb_neg _ _ H).
  now rewrite andb_false_r.
Qed.

Lemma toLowerCase_id s :
  forallb is_lowered s = true -> toLowerCase s = s.
Proof.
  induction s as [|x tl IH]; [reflexivity|].
  simpl. intros [Hx H]%andb_true_iff.
  apply Ascii.eqb_eq in Hx. now rewrite Hx, (IH H).
Qed.

(** ** [toKebabCase]: shape of the result *)

Lemma toKebabCase_In s c :
  In c (toKebabCase s) ->
  is_space_or_underscore c = false /\
  (c = "-" \/ exists c', In c' s /\ c = toLowerChar c').
Proof.
  unfold toKebabCase. intros H.
  apply replace_runs_In in H as [[<-|[]]|[H _]]; [auto|].
  apply strip_trailing_In, strip_leading_In in H.
  apply replace_runs_In in H as [[<-|[]]|[H Hsu]]; [auto|].
  split; [assumption|].
  apply in_map_iff in H as (c' & <- & H).
  apply insert_camel_hyphens_In in H as [->|H]; [auto|].
  right. now exists c'.
Qed.

Lemma toKebabCase_lowered s c :
  In c (toKebabCase s) -> is_lowered c = true.
Proof.
  intros [_ [->|(c' & _ & ->)]]%toKebabCase_In;
    [reflexivity|apply lower_is_lowered].
Qed.

Lemma toKebabCase_no_leading_hyphen s :
  starts_with is_hyphen (toKebabCase s) = false.
Proof.
  unfold toKebabCase. apply replace_runs_starts; [auto|].
  apply strip_trailing_starts, strip_leading_starts.
Qed.

Lemma toKebabCase_no_trailing_hyphen s :
  ends_with is_hyphen (toKebabCase s) = false.
Proof.
  unfold toKebabCase. apply replace_runs_ends, strip_trailing_ends.
Qed.

Lemma toKebabCase_shape s : kebab_shape (toKebabCase s) = true.
Proof.
  unfold kebab_shape.
  rewrite toKebabCase_no_leading_hyphen, toKebabCase_no_trailing_hyphen.
  unfold toKebabCase at 2. rewrite collapse_no_double.
  rewrite !andb_true_r. apply forallb_forall. intros c Hc.
  rewrite (toKebabCase_lowered _ _ Hc).
  now destruct (toKebabCase_In _ _ Hc) as [-> _].
Qed.

Lemma kebab_shape_fixed s : kebab_shape s = true -> toKebabCase s = s.
Proof.
  unfold kebab_shape.
  intros [[[Hc Hs]%andb_true_iff He]%andb_true_iff Hd]%andb_true_iff.
  apply negb_true_iff in Hs, He.
  rewrite forallb_forall in Hc.
  assert (Hlow : forallb is_lowered s = true).
  { apply forallb_forall. intros c H. now apply Hc, andb_true_iff in H. }
  assert (Hsu : forallb (fun c => negb (is_space_or_underscore c)) s = true).
  { apply forallb_forall. intros c H. now apply Hc, andb_true_iff in H. }
  assert (HAZ : forallb (fun c => negb (is_AZ c)) s = true).
  { apply forallb_forall. intros c H. apply negb_true_iff, lowered_not_AZ.
    now apply Hc, andb_true_iff in H. }
  unfold toKebabCase.
  rewrite insert_camel_hyphens_id by now apply no_AZ_no_camel_transition.
  rewrite toLowerCase_id by assumption.
  rewrite (replace_runs_id is_space_or_underscore) by assumption.
  rewrite strip_ends_id by assumption.
  now apply collapse_id.
Qed.

(** ** [toKebabCase]: the empty result *)

Lemma strip_ends_nil p s : strip_ends p s = [] -> forallb p s = true.
Proof.
  unfold strip_ends. intros H%strip_trailing_nil.
  pose proof (strip_leading_starts p s) as Hs.
  destruct (strip_leading p s) as [|c tl] eqn:E.
  - clear H Hs. induction s as [|x r IH]; [reflexivity|].
    simpl in *. destruct (p x); [auto|discriminate].
  - simpl in *. rewrite Hs in H. discriminate.
Qed.

Lemma separators_no_camel_transition s :
  forallb FewShot.is_separator s = true -> has_camel_transition s = false.
Proof.
  induction s as [|x tl IH]; [reflexivity|].
  simpl. intros [Hx H]%andb_true_iff. rewrite (IH H).
  assert (is_az x = false) as ->; [|reflexivity].
  apply negb_true_iff. revert Hx. apply implb_true_iff.
  revert x. by_all_chars.
Qed.

Lemma toKebabCase_of_separators s :
  forallb FewShot.is_separator s = true -> toKebabCase s = [].
Proof.
  intros H. unfold toKebabCase.
  rewrite insert_camel_hyphens_id by now apply separators_no_camel_transition.
  rewrite strip_ends_all; [reflexivity|].
  rewrite forallb_forall in H.
  assert (forallb (fun c => Ascii.eqb c "-")
            (replace_runs is_space_or_underscore ["-"] (toLowerCase s)) = true)
    as Hall.
  { apply replace_runs_only, forallb_forall.
    intros c (c' & <- & Hc)%in_map_iff. specialize (H _ Hc). revert H.
    clear Hc. apply implb_true_iff. revert c'. by_all_chars. }
  rewrite forallb_forall in Hall. apply forallb_forall.
  intros c Hc. now rewrite (proj1 (Ascii.eqb_eq _ _) (Hall _ Hc)).
Qed.

Lemma toKebabCase_nil s :
  toKebabCase s = [] -> forallb FewShot.is_separator s = true.
Proof.
  unfold toKebabCase. intros H.
  apply replace_runs_nil in H; [|discriminate].
  apply strip_ends_nil in H. rewrite forallb_forall in H.
  apply forallb_forall. intros c Hc.
  apply insert_camel_hyphens_keeps in Hc.
  apply (in_map toLowerChar) in Hc.
  unfold FewShot.is_separator.
  rewrite <- lower_space, <- lower_underscore, <- lower_hyphen.
  apply (replace_runs_keeps is_space_or_underscore "-") in Hc as [Hc|Hc].
  - unfold is_space_or_underscore in Hc. now rewrite Hc.
  - rewrite (H _ Hc). apply orb_true_r.
Qed.

(** ** Claims on [toKebabCase] *)




(** C8: [toKebabCase] is idempotent. *)
Theorem C8_toKebabCase_idempotent (s : jsstring) :
  toKebabCase (toKebabCase s) = toKebabCase s.
Proof.
  apply kebab_shape_fixed, toKebabCase_shape.
Qed.

(** ** The slug of a new Item *)

Lemma createItem_slug_fresh taken title token suffixes :
  Catalog.slug_base title token ∉ taken ->
  Catalog.createItem_slug taken title token suffixes
  = Some (Catalog.slug_base title token).
Proof.
  intros H. unfold Catalog.createItem_slug.
  now rewrite bool_decide_eq_false_2.
Qed.

Lemma createItem_slug_second title token suffix rest :
  Catalog.createItem_slug [Catalog.slug_base title token] title token
    (suffix :: rest)
  = Some (Catalog.slug_base title token ++ "-" :: suffix).
Proof.
  unfold Catalog.createItem_slug.
  rewrite bool_decide_eq_true_2 by apply list_elem_of_here.
  simpl. rewrite bool_decide_eq_false_2; [reflexivity|].
  intros H%list_elem_of_singleton.
  apply (f_equal (@length ascii)) in H.
  rewrite length_app in H. simpl in H. lia.
Qed.

Lemma disambiguate_unique taken base suffixes slug :
  Catalog.disambiguate taken base suffixes = Some slug ->
  (slug ∉ taken) /\
  exists suffix, In suffix suffixes /\ slug = base ++ "-" :: suffix.
Proof.
  induction suffixes as [|x rest IH]; simpl; [discriminate|].
  case_bool_decide as Hin.
  - intros H. destruct (IH H) as [Hout (suffix & Hs & ->)].
    split; [assumption|]. exists suffix. auto.
  - intros [= <-]. split; [assumption|]. exists x. auto.
Qed.

Lemma createItem_slug_unique taken title token suffixes slug :
  Catalog.createItem_slug taken title token suffixes = Some slug ->
  slug ∉ taken.
Proof.
  unfold Catalog.createItem_slug. case_bool_decide as Hin.
  - now intros [? _]%disambiguate_unique.
  - now intros [= <-].
Qed.

(** C6: the title "Vintage Lamp" is normalized to exactly "vintage-lamp",
    which is the slug of the first Item of that title; a second Item of
    the same title gets "vintage-lamp", a hyphen and the disambiguating
    suffix drawn. *)
Theorem C6_vintage_lamp (token suffix : jsstring) (rest : list jsstring) :
  toKebabCase (str "Vintage Lamp") = str "vintage-lamp" /\
  Catalog.createItem_slug [] (str "Vintage Lamp") token (suffix :: rest)
    = Some (str "vintage-lamp") /\
  Catalog.createItem_slug [str "vintage-lamp"] (str "Vintage Lamp") token
    (suffix :: rest) = Some (str "vintage-lamp-" ++ suffix).
Proof.
  split; [reflexivity|]. split.
  - apply (createItem_slug_fresh [] (str "Vintage Lamp")).
    apply not_elem_of_nil.
  - apply (createItem_slug_second (str "Vintage Lamp")).
Qed.

(** ** The comments router *)

Section Router.

Import Comments.

End Router.

(** C7, as stated, fails: when the store rejects the call with the error
    "connection refused", neither handler surfaces that error; each
    answers with its own fixed message. *)
Lemma C7_counterexample :
  Comments.fault Samples.unavailable = Some Samples.connection_refused /\
  Comments.sent
    (Comments.router_get Samples.unavailable Samples.request_of_user2).2
    <> Comments.JError (Comments.message Samples.connection_refused) /\
  Comments.sent
    (Comments.router_delete Samples.unavailable Samples.request_of_user2).2
    <> Comments.JError (Comments.message Samples.connection_refused).
Proof. split; [reflexivity|]. split; discriminate. Qed.

(** C7, amended: when the persistence call of the comment-listing or the
    comment-deletion route fails, the handler catches the error and
    answers 500 with its own fixed message ("Failed to fetch comments",
    "Failed to delete comment"), whatever the original error was; the
    store is left as it is. *)
Theorem C7_router_errors_replaced
  (db : Comments.Db) (req : Comments.Request) (err : Comments.Error) :
  Comments.fault db = Some err ->
  Comments.router_get db req =
    (db, {| Comments.status := 500;
            Comments.sent := Comments.JError "Failed to fetch comments" |}) /\
  Comments.router_delete db req =
    (db, {| Comments.status := 500;
            Comments.sent := Comments.JError "Failed to delete comment" |}).
Proof.
  intros Hf.
  unfold Comments.router_get, Comments.router_delete,
    Comments.Comment_find, Comments.Comment_findByIdAndDelete.
  rewrite Hf. split; reflexivity.
Qed.

Lemma C7_router_errors_replaced_witness :
  Comments.router_get Samples.unavailable Samples.request_of_user2 =
    (Samples.unavailable,
     {| Comments.status := 500;
        Comments.sent := Comments.JError "Failed to fetch comments" |}) /\
  Comments.router_delete Samples.unavailable Samples.request_of_user2 =
    (Samples.unavailable,
     {| Comments.status := 500;
        Comments.sent := Comments.JError "Failed to delete comment" |}).
Proof.
  apply (C7_router_errors_replaced Samples.unavailable
           Samples.request_of_user2 Samples.connection_refused).
  reflexivity.
Defined.

(** ** Favorites: the count follows the sets *)

Section Favorites.

Import Catalog.

Lemma size_filter_update (P : nat * gset nat -> Prop)
  `{!forall e, Decision (P e)} (m : gmap nat (gset nat)) k x x' :
  m !! k = Some x ->
  size (filter P (<[k := x']> m)) + (if decide (P (k, x)) then 1 else 0)
  = size (filter P m) + (if decide (P (k, x')) then 1 else 0).
Proof.
  intros Hk. rewrite map_filter_insert, map_filter_delete.
  destruct (decide (P (k, x))) as [Hx|Hx].
  - assert (Hin : filter P m !! k = Some x)
      by now apply map_lookup_filter_Some_2.
    assert (Hpos : size (filter P m) <> 0).
    { intros E%map_size_empty_iff. rewrite E, lookup_empty in Hin.
      discriminate. }
    destruct (decide (P (k, x'))).
    + rewrite map_size_insert_Some by eauto. reflexivity.
    + rewrite map_size_delete_Some by eauto. lia.
  - assert (Hout : filter P m !! k = None).
    { apply map_lookup_filter_None. right. intros y Hy.
      rewrite Hk in Hy. now injection Hy as <-. }
    destruct (decide (P (k, x'))).
    + rewrite map_size_insert_None by assumption. lia.
    + rewrite map_size_delete_None by assumption. reflexivity.
Qed.

Lemma favorited_by_update item st user favs favs' counts :
  favorites st !! user = Some favs ->
  favorited_by item
    {| favorites := <[user := favs']> (favorites st);
       favoritesCount := counts |}
  + (if decide (item ∈ favs) then 1 else 0)
  = favorited_by item st + (if decide (item ∈ favs') then 1 else 0).
Proof.
  intros H. unfold favorited_by. cbn [favorites].
  pose proof (size_filter_update (fun e : nat * gset nat => item ∈ e.2)
                (favorites st) user favs favs' H) as E.
  cbn [snd] in E.
  repeat destruct (decide _); first [exact E | contradiction].
Qed.

Lemma favorite_consistent user item st :
  consistent st -> consistent (favorite user item st).
Proof.
  intros Hc. unfold favorite.
  destruct (favorites st !! user) as [favs|] eqn:Hu; [|assumption].
  destruct (favoritesCount st !! item) as [count|] eqn:Hi; [|assumption].
  destruct (decide (item ∈ favs)) as [Hin|Hin]; [assumption|].
  intros j n. cbn [favoritesCount].
  pose proof (favorited_by_update j st user favs ({[item]} ∪ favs)
                (<[item := S count]> (favoritesCount st)) Hu) as E.
  destruct (decide (j = item)) as [->|Hne].
  - rewrite lookup_insert_eq. intros [= <-].
    pose proof (Hc item count Hi).
    assert (item ∈ {[item]} ∪ favs)
      by (apply elem_of_union_l, elem_of_singleton; reflexivity).
    do 2 case_decide; try contradiction. lia.
  - rewrite lookup_insert_ne by congruence. intros Hj.
    pose proof (Hc j n Hj).
    assert (j ∈ {[item]} ∪ favs <-> j ∈ favs) as Hiff.
    { rewrite elem_of_union, elem_of_singleton. tauto. }
    do 2 case_decide; try tauto; lia.
Qed.

Lemma unfavorite_consistent user item st :
  consistent st -> consistent (unfavorite user item st).
Proof.
  intros Hc. unfold unfavorite.
  destruct (favorites st !! user) as [favs|] eqn:Hu; [|assumption].
  destruct (favoritesCount st !! item) as [count|] eqn:Hi; [|assumption].
  destruct (decide (item ∈ favs)) as [Hin|Hin]; [|assumption].
  intros j n. cbn [favoritesCount].
  pose proof (favorited_by_update j st user favs (favs ∖ {[item]})
                (<[item := pred count]> (favoritesCount st)) Hu) as E.
  destruct (decide (j = item)) as [->|Hne].
  - rewrite lookup_insert_eq. intros [= <-].
    pose proof (Hc item count Hi).
    assert (item ∉ favs ∖ {[item]}).
    { rewrite elem_of_difference, elem_of_singleton. tauto. }
    do 2 case_decide; try contradiction. lia.
  - rewrite lookup_insert_ne by congruence. intros Hj.
    pose proof (Hc j n Hj).
    assert (j ∈ favs ∖ {[item]} <-> j ∈ favs) as Hiff.
    { rewrite elem_of_difference, elem_of_singleton. tauto. }
    do 2 case_decide; try tauto; lia.
Qed.

Lemma run_consistent ops st : consistent st -> consistent (run ops st).
Proof.
  revert st. induction ops as [|op ops IH]; intros st Hc; [assumption|].
  apply IH. destruct op; simpl.
  - now apply favorite_consistent.
  - now apply unfavorite_consistent.
Qed.

Lemma favorite_of_member user item st favs :
  favorites st !! user = Some favs -> item ∈ favs ->
  favorite user item st = st.
Proof.
  intros Hu Hin. unfold favorite. rewrite Hu.
  destruct (favoritesCount st !! item); [|reflexivity].
  now rewrite decide_True.
Qed.

Lemma favorite_again user item st :
  favorite user item (favorite user item st) = favorite user item st.
Proof.
  destruct (favorites st !! user) as [favs|] eqn:Hu.
  2:{ assert (E : favorite user item st = st)
        by (unfold favorite; now rewrite Hu).
      now rewrite !E. }
  destruct (favoritesCount st !! item) as [count|] eqn:Hi.
  2:{ assert (E : favorite user item st = st)
        by (unfold favorite; now rewrite Hu, Hi).
      now rewrite !E. }
  destruct (decide (item ∈ favs)) as [Hin|Hin].
  - now rewrite !(favorite_of_member user item st favs).
  - assert (E : favorite user item st =
        {| favorites := <[user := {[item]} ∪ favs]> (favorites st);
           favoritesCount := <[item := S count]> (favoritesCount st) |}).
    { unfold favorite. rewrite Hu, Hi. now rewrite decide_False. }
    rewrite E. apply favorite_of_member with (favs := {[item]} ∪ favs).
    + cbn [favorites]. apply lookup_insert_eq.
    + apply elem_of_union_l, elem_of_singleton. reflexivity.
Qed.

Lemma fresh_catalog_consistent : consistent Samples.fresh_catalog.
Proof.
  intros j n. unfold Samples.fresh_catalog. cbn [favoritesCount].
  intros [<- <-]%lookup_singleton_Some. vm_compute. reflexivity.
Qed.

End Favorites.

(** C2: after any sequence of favorite and unfavorite operations on a
    state in which every count is the number of favoriting users, the
    [favoritesCount] of every Item is again the number of Users whose
    [favorites] set contains it, and favoriting once more by the same user
    changes nothing. *)
Theorem C2_favoritesCount_invariant
  (ops : list Catalog.operation) (st : Catalog.State) :
  Catalog.consistent st ->
  Catalog.consistent (Catalog.run ops st) /\
  forall user item,
    Catalog.favorite user item (Catalog.favorite user item (Catalog.run ops st))
    = Catalog.favorite user item (Catalog.run ops st).
Proof.
  intros Hc. split.
  - now apply run_consistent.
  - intros user item. apply favorite_again.
Qed.

Lemma C2_favoritesCount_invariant_witness :
  Catalog.consistent Samples.fresh_catalog /\
  Catalog.consistent
    (Catalog.run Samples.some_operations Samples.fresh_catalog) /\
  forall user item,
    Catalog.favorite user item
      (Catalog.favorite user item
         (Catalog.run Samples.some_operations Samples.fresh_catalog))
    = Catalog.favorite user item
        (Catalog.run Samples.some_operations Samples.fresh_catalog).
Proof.
  split; [exact fresh_catalog_consistent|].
  apply (C2_favoritesCount_invariant Samples.some_operations
           Samples.fresh_catalog).
  exact fresh_catalog_consistent.
Defined.

(** ** Splitting and joining *)

Section Splitting.

Import CaseUtils.

Variable p : ascii -> bool.

Lemma split_not_nil s : split p s <> [].
Proof.
  induction s as [|c tl IH]; simpl; [discriminate|].
  destruct (p c); [destruct (starts_with p tl); [assumption|discriminate]|].
  destruct (split p tl); discriminate.
Qed.

Lemma split_cons_sep c tl :
  p c = true -> split p (c :: tl) = [] :: split p (strip_leading p tl).
Proof.
  revert c. induction tl as [|x r IH]; intros c Hc.
  - simpl. now rewrite Hc.
  - change (split p (c :: x :: r)) with
      (if p c
       then if p x then split p (x :: r) else [] :: split p (x :: r)
       else cons_first c (split p (x :: r))).
    rewrite Hc. simpl strip_leading.
    destruct (p x) eqn:Hx; [now apply IH|reflexivity].
Qed.

Lemma split_cons c tl :
  split p (c :: tl) =
  if p c
  then if starts_with p tl then split p tl else [] :: split p tl
  else cons_first c (split p tl).
Proof. reflexivity. Qed.

Lemma split_cons_word c tl :
  p c = false -> split p (c :: tl) = cons_first c (split p tl).
Proof. intros H. simpl. now rewrite H. Qed.

Lemma split_strip_leading s :
  List.filter has_length (split p (strip_leading p s))
  = List.filter has_length (split p s).
Proof.
  destruct s as [|c tl]; [reflexivity|].
  simpl strip_leading. destruct (p c) eqn:Hc; [|reflexivity].
  now rewrite (split_cons_sep c tl Hc).
Qed.

Lemma split_all_sep s :
  s <> [] -> forallb p s = true -> split p s = [[]; []].
Proof.
  destruct s as [|c tl]; [congruence|]. intros _ [Hc H]%andb_true_iff.
  rewrite (split_cons_sep c tl Hc), strip_leading_all by assumption.
  reflexivity.
Qed.

Lemma cons_first_app c ws ws' :
  ws <> [] -> cons_first c (ws ++ ws') = cons_first c ws ++ ws'.
Proof. destruct ws; [congruence|reflexivity]. Qed.

Lemma split_strip_trailing s :
  split p s = split p (strip_trailing p s) \/
  split p s = split p (strip_trailing p s) ++ [[]].
Proof.
  induction s as [|c tl IH]; [now left|].
  rewrite strip_trailing_cons.
  destruct (strip_trailing p tl) as [|y r] eqn:E; simpl is_nil_b.
  - destruct (p c) eqn:Hc; simpl andb.
    + right. apply strip_trailing_nil in E.
      rewrite split_all_sep; [reflexivity|discriminate|].
      simpl. now rewrite Hc.
    + rewrite !split_cons_word by assumption.
      destruct IH as [->| ->]; [now left|right].
      apply cons_first_app, split_not_nil.
  - simpl andb.
    assert (Hs : starts_with p tl = starts_with p (y :: r)).
    { destruct tl as [|x tl']; [discriminate|].
      rewrite strip_trailing_cons in E.
      destruct (is_nil_b (strip_trailing p tl') && p x); [discriminate|].
      now injection E as -> _. }
    rewrite (split_cons c tl), (split_cons c (y :: r)), Hs. destruct (p c).
    + destruct (starts_with p (y :: r));
        destruct IH as [->| ->]; auto.
    + destruct IH as [->| ->]; [now left|right].
      apply cons_first_app, split_not_nil.
Qed.

Lemma filter_has_length_snoc ws :
  List.filter has_length (ws ++ [[]]) = List.filter has_length ws.
Proof.
  rewrite List.filter_app. simpl. apply app_nil_r.
Qed.

Lemma split_strip_ends s :
  List.filter has_length (split p (strip_ends p s))
  = List.filter has_length (split p s).
Proof.
  unfold strip_ends. rewrite <- (split_strip_leading s).
  destruct (split_strip_trailing (strip_leading p s)) as [->| ->];
    [reflexivity|].
  now rewrite filter_has_length_snoc.
Qed.

Lemma split_pieces s w c :
  In w (split p s) -> In c w -> p c = false /\ In c s.
Proof.
  revert w. induction s as [|x tl IH]; intros w; simpl.
  - intros [<-|[]] [].
  - destruct (p x) eqn:Hx.
    + destruct (starts_with p tl).
      * intros Hw Hc. destruct (IH w Hw Hc). auto.
      * intros [<-|Hw] Hc; [destruct Hc|]. destruct (IH w Hw Hc). auto.
    + destruct (split p tl) as [|w0 rest] eqn:E; simpl.
      * intros [<-|[]] [<-|[]]. auto.
      * intros [<-|Hw] Hc.
        -- destruct Hc as [<-|Hc]; [auto|].
           destruct (IH w0 (or_introl eq_refl) Hc). auto.
        -- destruct (IH w (or_intror Hw) Hc). auto.
Qed.

Lemma split_word w :
  forallb (fun c => negb (p c)) w = true -> split p w = [w].
Proof.
  induction w as [|c tl IH]; [reflexivity|].
  simpl. intros [Hc H]%andb_true_iff. apply negb_true_iff in Hc.
  now rewrite Hc, (IH H).
Qed.

Lemma split_word_sep w d rest :
  forallb (fun c => negb (p c)) w = true -> p d = true ->
  split p (w ++ d :: rest) = w :: split p (strip_leading p rest).
Proof.
  intros Hw Hd. induction w as [|c tl IH].
  - now apply split_cons_sep.
  - simpl in Hw. apply andb_true_iff in Hw as [Hc Hw].
    apply negb_true_iff in Hc.
    change ((c :: tl) ++ d :: rest) with (c :: (tl ++ d :: rest)).
    rewrite split_cons_word by assumption. now rewrite (IH Hw).
Qed.

Lemma join_starts d ws :
  Forall (word_ok p) ws -> starts_with p (join [d] ws) = false.
Proof.
  destruct 1 as [|w rest [Hne Hw] _]; [reflexivity|].
  destruct w as [|c tl]; [congruence|].
  simpl in Hw. apply andb_true_iff in Hw as [Hc _].
  apply negb_true_iff in Hc.
  simpl. destruct rest; simpl; assumption.
Qed.

Lemma split_join d ws :
  p d = true -> ws <> [] -> Forall (word_ok p) ws ->
  split p (join [d] ws) = ws.
Proof.
  intros Hd Hne Hall. induction Hall as [|w rest [Hw1 Hw2] Hrest IH];
    [congruence|].
  destruct rest as [|w' rest'].
  - simpl. now apply split_word.
  - change (join [d] (w :: w' :: rest'))
      with (w ++ d :: join [d] (w' :: rest')).
    rewrite split_word_sep by assumption.
    rewrite strip_leading_id by now apply join_starts.
    rewrite IH; [reflexivity|discriminate].
Qed.

Lemma ends_with_app q s c rest :
  ends_with q (s ++ c :: rest) = ends_with q (c :: rest).
Proof.
  induction s as [|x tl IH]; [reflexivity|].
  change ((x :: tl) ++ c :: rest) with (x :: (tl ++ c :: rest)).
  rewrite ends_with_cons; [assumption|]. now destruct tl.
Qed.

Lemma join_ends d ws :
  Forall (word_ok p) ws -> ends_with p (join [d] ws) = false.
Proof.
  induction 1 as [|w rest [Hne Hw] Hrest IH]; [reflexivity|].
  destruct rest as [|w' rest'].
  - simpl. now apply ends_with_forallb_neg.
  - change (join [d] (w :: w' :: rest'))
      with (w ++ d :: join [d] (w' :: rest')).
    rewrite ends_with_app, ends_with_cons; [assumption|].
    inversion Hrest as [|? ? [Hw' _] _]; subst.
    destruct w'; [congruence|]. simpl. destruct rest'; discriminate.
Qed.

Lemma filter_has_length_words ws :
  Forall (word_ok p) ws -> List.filter has_length ws = ws.
Proof.
  induction 1 as [|w rest [Hne _] _ IH]; [reflexivity|].
  simpl. rewrite IH. destruct w; [congruence|reflexivity].
Qed.

Lemma split_words_ok s :
  Forall (word_ok p) (List.filter has_length (split p s)).
Proof.
  apply List.Forall_forall. intros w [Hw Hlen]%List.filter_In. split.
  - destruct w; [discriminate|discriminate].
  - apply forallb_forall. intros c Hc. apply negb_true_iff.
    now destruct (split_pieces s w c Hw Hc).
Qed.

End Splitting.

Section Extensionality.

Variables p q : ascii -> bool.

Lemma split_ext s :
  (forall c, In c s -> p c = q c) -> split p s = split q s.
Proof.
  induction s as [|c tl IH]; [reflexivity|].
  intros H. rewrite !split_cons.
  rewrite (H c (or_introl eq_refl)), IH by (intros; apply H; now right).
  destruct tl as [|x r]; [reflexivity|].
  simpl starts_with. now rewrite (H x (or_intror (or_introl eq_refl))).
Qed.

End Extensionality.

(** ** Joining the words in camelCase *)

Lemma join_nil ws : join [] ws = concat ws.
Proof.
  induction ws as [|w rest IH]; [reflexivity|].
  destruct rest as [|w' rest'].
  - simpl. now rewrite app_nil_r.
  - change (join [] (w :: w' :: rest')) with (w ++ join [] (w' :: rest')).
    now rewrite IH.
Qed.

Lemma join_In d ws c :
  In c (join d ws) -> In c d \/ exists w, In w ws /\ In c w.
Proof.
  induction ws as [|w rest IH]; [intros []|].
  destruct rest as [|w' rest'].
  - simpl. intros H. right. exists w. auto.
  - change (join d (w :: w' :: rest')) with (w ++ d ++ join d (w' :: rest')).
    rewrite !in_app_iff. intros [H|[H|H]].
    + right. exists w. split; [now left|assumption].
    + now left.
    + destruct (IH H) as [?|(w0 & ? & ?)]; [now left|].
      right. exists w0. split; [now right|assumption].
Qed.

Lemma mapi_from_camel_word i ws :
  mapi_from camel_word (S i) ws = map (fun w => camel_word w 1) ws.
Proof.
  revert i. induction ws as [|w rest IH]; intros i; [reflexivity|].
  simpl. now rewrite IH.
Qed.

Lemma toLowerCase_idempotent w : toLowerCase (toLowerCase w) = toLowerCase w.
Proof.
  apply toLowerCase_id, forallb_forall.
  intros c (c' & <- & _)%in_map_iff. apply lower_is_lowered.
Qed.

Lemma camel_word_lower w i : camel_word (toLowerCase w) i = camel_word w i.
Proof. unfold camel_word. now rewrite toLowerCase_idempotent. Qed.

Lemma mapi_from_camel_word_lower i ws :
  mapi_from camel_word i (map toLowerCase ws) = mapi_from camel_word i ws.
Proof.
  revert i. induction ws as [|w rest IH]; intros i; [reflexivity|].
  simpl. now rewrite IH, camel_word_lower.
Qed.

Lemma concat_camel_words ws :
  concat (map (fun w => camel_word w 1) (List.filter CaseUtils.has_length ws))
  = concat (map (fun w => camel_word w 1) ws).
Proof.
  induction ws as [|w rest IH]; [reflexivity|].
  simpl. destruct w as [|c tl]; simpl; [assumption|].
  now rewrite IH.
Qed.

Lemma camel_join_words w ws :
  w <> [] ->
  join [] (mapi camel_word (List.filter CaseUtils.has_length (w :: ws)))
  = join [] (mapi camel_word (w :: ws)).
Proof.
  intros Hw. destruct w as [|c tl]; [congruence|].
  simpl List.filter. unfold mapi. simpl mapi_from.
  rewrite !mapi_from_camel_word, !join_nil. simpl concat.
  now rewrite concat_camel_words.
Qed.

Lemma camel_join_split p s :
  starts_with p s = false ->
  join [] (mapi camel_word (List.filter CaseUtils.has_length (split p s)))
  = join [] (mapi camel_word (split p s)).
Proof.
  destruct s as [|c tl]; [reflexivity|].
  simpl starts_with. intros Hc. rewrite split_cons_word by assumption.
  pose proof (split_not_nil p tl) as Hne.
  destruct (split p tl) as [|w rest]; [congruence|].
  simpl cons_first. now apply camel_join_words.
Qed.

(** ** [toCamelCase] and [toDotCase] through their words *)

Section Words.

Import CaseUtils.

Lemma remove_all_subset q s c : In c (remove_all q s) -> In c s /\ q c = false.
Proof.
  unfold remove_all. intros [H1 H2]%List.filter_In.
  now apply negb_true_iff in H2.
Qed.

Lemma remove_all_id q s :
  forallb (fun c => negb (q c)) s = true -> remove_all q s = s.
Proof.
  unfold remove_all. induction s as [|c tl IH]; [reflexivity|].
  simpl. intros [-> H]%andb_true_iff. now rewrite (IH H).
Qed.

Lemma remove_all_nil q s : remove_all q s = [] -> forallb q s = true.
Proof.
  unfold remove_all. induction s as [|c tl IH]; [reflexivity|].
  simpl. destruct (q c); simpl; [assumption|discriminate].
Qed.

Lemma words_of_separators s :
  forallb is_separator s = true -> words_of s = [].
Proof.
  intros H. unfold words_of. rewrite strip_ends_all; [reflexivity|].
  rewrite forallb_forall in H. apply forallb_forall.
  intros c [Hc _]%remove_all_subset. now apply H.
Qed.

Lemma blank_words_of s :
  is_empty (trim s) || is_empty (remove_all is_separator s) = true ->
  words_of s = [].
Proof.
  intros [H|H]%orb_true_iff; apply words_of_separators.
  - destruct (trim s) eqn:E; [|discriminate].
    apply strip_ends_nil in E. rewrite forallb_forall in E.
    apply forallb_forall. intros c Hc. unfold is_separator.
    now rewrite (E c Hc).
  - destruct (remove_all is_separator s) eqn:E; [|discriminate].
    now apply remove_all_nil.
Qed.

Lemma toCamelCase_words s :
  toCamelCase s = join [] (mapi camel_word (words_of s)).
Proof.
  unfold toCamelCase. fold (words_of s).
  destruct (is_empty (trim s) || is_empty (remove_all is_separator s)) eqn:E.
  - now rewrite blank_words_of.
  - destruct (words_of s); reflexivity.
Qed.

Lemma toDotCase_words s :
  toDotCase s = join ["."] (map toLowerCase (words_of s)).
Proof.
  unfold toDotCase. fold (words_of s).
  destruct (is_empty (trim s) || is_empty (remove_all is_separator s)) eqn:E.
  - now rewrite blank_words_of.
  - destruct (words_of s); reflexivity.
Qed.

Lemma words_of_ok s : Forall (word_ok is_separator) (words_of s).
Proof. apply split_words_ok. Qed.

Lemma words_of_kept s w c : In w (words_of s) -> In c w -> is_kept c = true.
Proof.
  unfold words_of. intros [Hw _]%List.filter_In Hc.
  destruct (split_pieces _ _ _ _ Hw Hc) as [_ H].
  apply strip_trailing_In, strip_leading_In, remove_all_subset in H as [_ H].
  now apply negb_false_iff in H.
Qed.

Lemma lower_word_ok w :
  word_ok is_separator w -> word_ok is_separator (toLowerCase w).
Proof.
  intros [Hne H]. split.
  - destruct w; [congruence|discriminate].
  - rewrite forallb_forall in H. apply forallb_forall.
    intros c (c' & <- & Hc)%in_map_iff. specialize (H _ Hc).
    unfold is_separator in *.
    now rewrite lower_space, lower_underscore, lower_hyphen, lower_dot.
Qed.

Lemma lower_kept c : is_kept c = true -> is_kept (toLowerChar c) = true.
Proof.
  apply implb_true_iff. revert c. by_all_chars.
Qed.

Lemma words_of_join ws :
  Forall (word_ok is_separator) ws ->
  (forall w c, In w ws -> In c w -> is_kept c = true) ->
  words_of (join ["."] ws) = ws.
Proof.
  intros Hok Hkept. destruct ws as [|w0 rest]; [reflexivity|].
  unfold words_of. rewrite remove_all_id.
  - rewrite strip_ends_id by (now apply join_starts || now apply join_ends).
    rewrite split_join by (reflexivity || discriminate || assumption).
    now apply filter_has_length_words with (p := is_separator).
  - apply forallb_forall. intros c Hc. rewrite negb_involutive.
    apply join_In in Hc as [[<-|[]]|(w & Hw & Hc)]; [reflexivity|].
    now apply (Hkept w).
Qed.

End Words.

(** C10: converting to dot.case first and to camelCase then gives what
    converting to camelCase directly gives. *)
Theorem C10_toCamelCase_toDotCase (s : jsstring) :
  CaseUtils.toCamelCase (CaseUtils.toDotCase s) = CaseUtils.toCamelCase s.
Proof.
  rewrite (toCamelCase_words (CaseUtils.toDotCase s)), toDotCase_words.
  rewrite words_of_join.
  - unfold mapi. rewrite mapi_from_camel_word_lower.
    symmetry. apply toCamelCase_words.
  - pose proof (words_of_ok s) as H. induction H; constructor;
      [now apply lower_word_ok|assumption].
  - intros w c (w' & <- & Hw)%in_map_iff (c' & <- & Hc)%in_map_iff.
    apply lower_kept. now apply (words_of_kept s w').
Qed.

(** ** The two [toCamelCase] functions *)

Lemma title_char_kept c :
  is_title_char c = true -> CaseUtils.is_kept c = true.
Proof. apply implb_true_iff. revert c. by_all_chars. Qed.

Lemma title_char_separator c :
  is_title_char c = true -> CaseUtils.is_separator c = is_boundary c.
Proof.
  intros H. apply eqb_prop. revert H. apply implb_true_iff.
  revert c. by_all_chars.
Qed.

Lemma title_words_of s :
  forallb is_title_char s = true ->
  CaseUtils.words_of s
  = List.filter CaseUtils.has_length (split FewShot.is_separator s).
Proof.
  intros H. rewrite forallb_forall in H. unfold CaseUtils.words_of.
  rewrite remove_all_id.
  - rewrite split_strip_ends. f_equal. apply split_ext.
    intros c Hc. now apply title_char_separator, H.
  - apply forallb_forall. intros c Hc. rewrite negb_involutive.
    now apply title_char_kept, H.
Qed.

(** C9, as stated, fails: on "___leading-separator", an example of the
    documented function, the function of few_shot_prompt.js capitalizes
    the first word. *)
Lemma C9_counterexample :
  FewShot.toCamelCase (str "___leading-separator") = str "LeadingSeparator" /\
  CaseUtils.toCamelCase (str "___leading-separator") = str "leadingSeparator" /\
  FewShot.toCamelCase (str "___leading-separator")
    <> CaseUtils.toCamelCase (str "___leading-separator").
Proof. repeat split; try reflexivity. discriminate. Qed.

(** C9, amended: the two [toCamelCase] functions return the same result
    on every string made of ASCII letters, digits, whitespace, underscores
    and hyphens that does not begin with whitespace, an underscore or a
    hyphen. *)
Theorem C9_toCamelCase_agree (s : jsstring) :
  forallb is_title_char s = true ->
  starts_with is_boundary s = false ->
  FewShot.toCamelCase s = CaseUtils.toCamelCase s.
Proof.
  intros Hchars Hstart.
  rewrite toCamelCase_words, title_words_of by assumption.
  unfold FewShot.toCamelCase. symmetry. now apply camel_join_split.
Qed.

Lemma C9_toCamelCase_agree_witness :
  forallb is_title_char (str "SCREEN_NAME - mobile  number2 ") = true /\
  starts_with is_boundary (str "SCREEN_NAME - mobile  number2 ") = false /\
  FewShot.toCamelCase (str "SCREEN_NAME - mobile  number2 ")
  = CaseUtils.toCamelCase (str "SCREEN_NAME - mobile  number2 ").
Proof.
  split; [reflexivity|]. split; [reflexivity|].
  apply (C9_toCamelCase_agree (str "SCREEN_NAME - mobile  number2 "));
    reflexivity.
Defined.

(** * Further properties of the code *)

(** ** Runs, pieces and joins *)

Section RunsAndPieces.

Variable p : ascii -> bool.
Variable d : ascii.

Lemma join_cons_first c ws :
  ws <> [] -> join [d] (cons_first c ws) = c :: join [d] ws.
Proof.
  destruct ws as [|w rest]; [congruence|]. intros _.
  destruct rest; reflexivity.
Qed.

Lemma join_cons_nil ws : ws <> [] -> join [d] ([] :: ws) = d :: join [d] ws.
Proof. destruct ws; [congruence|reflexivity]. Qed.

(** Replacing every run by [d] is splitting at the runs and joining the
    pieces with [d]. *)
Lemma replace_runs_join s : replace_runs p [d] s = join [d] (split p s).
Proof.
  induction s as [|c tl IH]; [reflexivity|].
  rewrite split_cons. simpl replace_runs.
  pose proof (split_not_nil p tl) as Hne.
  destruct (p c).
  - destruct (starts_with p tl); [assumption|].
    rewrite join_cons_nil by assumption. simpl. now rewrite IH.
  - rewrite join_cons_first by assumption. now rewrite IH.
Qed.

Lemma split_starts_nil s :
  starts_with p s = true -> exists rest, split p s = [] :: rest.
Proof.
  destruct s as [|c tl]; [discriminate|]. simpl starts_with. intros Hc.
  rewrite (split_cons_sep p c tl Hc). eauto.
Qed.

Lemma split_inner_pieces s :
  s <> [] -> ends_with p s = false ->
  Forall (fun w => w <> [])
    (if starts_with p s then tl (split p s) else split p s).
Proof.
  induction s as [|c r IH]; [congruence|]. intros _ He.
  destruct r as [|x r'].
  - simpl in *. rewrite He. repeat constructor. discriminate.
  - assert (Hr : x :: r' <> []) by discriminate.
    change (ends_with p (x :: r') = false) in He.
    specialize (IH Hr He).
    rewrite (split_cons p c (x :: r')). simpl starts_with at 1.
    destruct (p c) eqn:Hc.
    + destruct (starts_with p (x :: r')); simpl tl; assumption.
    + destruct (starts_with p (x :: r')) eqn:Hs.
      * destruct (split_starts_nil _ Hs) as [rest E]. rewrite E in *.
        simpl in *. constructor; [discriminate|assumption].
      * destruct (split p (x :: r')) as [|w rest]; simpl.
        -- repeat constructor. discriminate.
        -- inversion IH; subst. constructor; [discriminate|assumption].
Qed.

Lemma filter_has_length_all ws :
  Forall (fun w : jsstring => w <> []) ws ->
  List.filter CaseUtils.has_length ws = ws.
Proof.
  induction 1 as [|w rest Hw _ IH]; [reflexivity|].
  simpl. rewrite IH. destruct w; [congruence|reflexivity].
Qed.

(** Stripping the runs at both ends and collapsing the others leaves the
    non-empty pieces, joined by [d]. *)
Lemma replace_runs_strip_ends s :
  replace_runs p [d] (strip_ends p s)
  = join [d] (List.filter CaseUtils.has_length (split p s)).
Proof.
  rewrite replace_runs_join, <- (split_strip_ends p s).
  destruct (strip_ends p s) as [|c tl] eqn:E; [reflexivity|].
  f_equal. symmetry. apply filter_has_length_all.
  assert (Hs : starts_with p (c :: tl) = false).
  { rewrite <- E. unfold strip_ends.
    apply strip_trailing_starts, strip_leading_starts. }
  assert (He : ends_with p (c :: tl) = false).
  { rewrite <- E. apply strip_trailing_ends. }
  pose proof (split_inner_pieces (c :: tl) ltac:(discriminate) He) as H.
  now rewrite Hs in H.
Qed.

Lemma concat_split s : concat (split p s) = remove_all p s.
Proof.
  induction s as [|c tl IH]; [reflexivity|].
  rewrite split_cons. unfold remove_all in *. simpl List.filter.
  destruct (p c); simpl negb; cbv iota.
  - destruct (starts_with p tl); simpl; assumption.
  - pose proof (split_not_nil p tl) as Hne.
    destruct (split p tl) as [|w rest]; [congruence|].
    simpl in *. now rewrite IH.
Qed.

Lemma concat_filter_has_length (ws : list jsstring) :
  concat (List.filter CaseUtils.has_length ws) = concat ws.
Proof.
  induction ws as [|w rest IH]; [reflexivity|].
  simpl. destruct w; simpl; [assumption|]. now rewrite IH.
Qed.

End RunsAndPieces.

Section TwoClasses.

Variables p q : ascii -> bool.
Variable d : ascii.
Hypothesis q_d : q d = true.

Let b (c : ascii) : bool := p c || q c.

Lemma replace_runs_starts_either s :
  starts_with q (replace_runs p [d] s) = starts_with b s.
Proof.
  induction s as [|x r IH]; [reflexivity|].
  simpl. unfold b at 1. destruct (p x) eqn:Hx; simpl.
  - destruct (starts_with p r) eqn:Hr; [|exact q_d].
    rewrite IH. destruct r as [|y r']; [discriminate|].
    simpl in *. unfold b. now rewrite Hr.
  - reflexivity.
Qed.

(** Splitting at [q] after the runs of [p] became [d] finds the pieces of
    splitting at both classes; the two splits differ in empty pieces
    only. *)
Lemma split_replace_runs_shape s :
  exists w rest rest',
    split q (replace_runs p [d] s) = w :: rest /\
    split b s = w :: rest' /\
    List.filter CaseUtils.has_length rest
    = List.filter CaseUtils.has_length rest'.
Proof.
  induction s as [|c tl IH]; [exists [], [], []; auto|].
  destruct IH as (w & rest & rest' & E1 & E2 & EF).
  rewrite (split_cons b c tl). simpl replace_runs.
  assert (Hw : starts_with b tl = true -> w = []).
  { intros Hs. destruct (split_starts_nil b tl Hs) as [r E].
    rewrite E in E2. now injection E2. }
  unfold b at 1. destruct (p c) eqn:Hc; simpl orb.
  - destruct (starts_with p tl) eqn:Hp.
    + assert (Hb : starts_with b tl = true).
      { destruct tl; [discriminate|]. simpl in *. unfold b. now rewrite Hp. }
      rewrite Hb, E1, E2. exists w, rest, rest'. auto.
    + change ([d] ++ replace_runs p [d] tl) with (d :: replace_runs p [d] tl).
      rewrite (split_cons q d), q_d, replace_runs_starts_either, E1, E2.
      destruct (starts_with b tl) eqn:Hb.
      * exists w, rest, rest'. auto.
      * exists [], (w :: rest), (w :: rest'). repeat split. simpl.
        now rewrite EF.
  - rewrite (split_cons q c), replace_runs_starts_either, E1, E2.
    destruct (q c).
    + destruct (starts_with b tl) eqn:Hb.
      * exists w, rest, rest'. auto.
      * exists [], (w :: rest), (w :: rest'). repeat split. simpl.
        now rewrite EF.
    + exists (c :: w), rest, rest'. auto.
Qed.

Lemma split_replace_runs s :
  List.filter CaseUtils.has_length (split q (replace_runs p [d] s))
  = List.filter CaseUtils.has_length (split b s).
Proof.
  destruct (split_replace_runs_shape s) as (w & rest & rest' & -> & -> & E).
  simpl. now rewrite E.
Qed.

End TwoClasses.

(** [toKebabCase] through its words. *)
Lemma toKebabCase_words s :
  toKebabCase s
  = join ["-"]
      (List.filter CaseUtils.has_length
         (split is_boundary (toLowerCase (insert_camel_hyphens s)))).
Proof.
  unfold toKebabCase. rewrite replace_runs_strip_ends.
  f_equal. apply (split_replace_runs is_space_or_underscore is_hyphen "-").
  reflexivity.
Qed.

(** ** [toKebabCase]: what it keeps *)

Section Kept.

Variable b : ascii -> bool.

Lemma remove_all_replace_runs p d s :
  (forall c, p c = true -> b c = true) -> b d = true ->
  remove_all b (replace_runs p [d] s) = remove_all b s.
Proof.
  intros Hp Hd. induction s as [|c tl IH]; [reflexivity|].
  simpl replace_runs. destruct (p c) eqn:Hc.
  - assert (E : remove_all b (c :: tl) = remove_all b tl).
    { unfold remove_all. simpl. now rewrite (Hp c Hc). }
    rewrite E. destruct (starts_with p tl); [assumption|].
    unfold remove_all in *. simpl. rewrite Hd. simpl. exact IH.
  - unfold remove_all in *. simpl. now rewrite IH.
Qed.

Lemma remove_all_strip_leading p s :
  (forall c, p c = true -> b c = true) ->
  remove_all b (strip_leading p s) = remove_all b s.
Proof.
  intros Hp. induction s as [|c tl IH]; [reflexivity|].
  simpl strip_leading. destruct (p c) eqn:Hc; [|reflexivity].
  rewrite IH. unfold remove_all. simpl. now rewrite (Hp c Hc).
Qed.

Lemma remove_all_strip_trailing p s :
  (forall c, p c = true -> b c = true) ->
  remove_all b (strip_trailing p s) = remove_all b s.
Proof.
  intros Hp. induction s as [|c tl IH]; [reflexivity|].
  rewrite strip_trailing_cons.
  destruct (strip_trailing p tl) as [|y r] eqn:E; simpl is_nil_b.
  - destruct (p c) eqn:Hc; simpl andb.
    + unfold remove_all in *. simpl. now rewrite (Hp c Hc), <- IH.
    + unfold remove_all in *. simpl. now rewrite <- IH.
  - simpl andb. unfold remove_all in *. simpl List.filter at 2.
    rewrite <- IH. reflexivity.
Qed.

End Kept.

Lemma remove_all_insert_camel_hyphens s :
  remove_all is_boundary (insert_camel_hyphens s) = remove_all is_boundary s.
Proof.
  induction s as [|x tl IH]; [reflexivity|].
  rewrite insert_camel_hyphens_cons.
  destruct (is_az x && starts_with is_AZ tl);
    unfold remove_all in *; simpl; now rewrite IH.
Qed.

Lemma lower_boundary c : is_boundary (toLowerChar c) = is_boundary c.
Proof.
  unfold is_boundary. now rewrite lower_space, lower_underscore, lower_hyphen.
Qed.

Lemma remove_all_toLowerCase b s :
  (forall c, b (toLowerChar c) = b c) ->
  remove_all b (toLowerCase s) = toLowerCase (remove_all b s).
Proof.
  intros Hb. unfold remove_all, toLowerCase.
  induction s as [|c tl IH]; [reflexivity|].
  simpl. rewrite Hb, IH. now destruct (b c).
Qed.

(** X1: whatever the input, the result of [toKebabCase] has no character
    left to lowercase, no whitespace and no underscore, no hyphen at
    either end and no two hyphens in a row. *)
Theorem X1_toKebabCase_result_shape (s : jsstring) :
  (forall c, In c (toKebabCase s) ->
     toLowerChar c = c /\ is_space c = false /\ is_underscore c = false) /\
  starts_with is_hyphen (toKebabCase s) = false /\
  ends_with is_hyphen (toKebabCase s) = false /\
  no_double_hyphen (toKebabCase s) = true.
Proof.
  split; [|split; [|split]].
  - intros c Hc. split.
    + now apply Ascii.eqb_eq, (toKebabCase_lowered s).
    + destruct (toKebabCase_In s c Hc) as [H _].
      now apply orb_false_iff in H.
  - apply toKebabCase_no_leading_hyphen.
  - apply toKebabCase_no_trailing_hyphen.
  - unfold toKebabCase. apply collapse_no_double.
Qed.

(** X2: the result of [toKebabCase] is made of the words of the input,
    joined by single hyphens: the input with a hyphen inserted at each
    lowercase-to-uppercase transition is lowercased and cut at its runs of
    whitespace, underscores and hyphens; the non-empty pieces are the
    words. *)
Theorem X2_toKebabCase_joins_words (s : jsstring) :
  toKebabCase s
  = join ["-"]
      (List.filter CaseUtils.has_length
         (split is_boundary (toLowerCase (insert_camel_hyphens s)))).
Proof. apply toKebabCase_words. Qed.

(** X3: [toKebabCase] drops and changes nothing but separators and case:
    with whitespace, underscores and hyphens deleted, the result is the
    lowercased input with whitespace, underscores and hyphens deleted. *)
Theorem X3_toKebabCase_keeps_content (s : jsstring) :
  remove_all is_boundary (toKebabCase s)
  = remove_all is_boundary (toLowerCase s).
Proof.
  unfold toKebabCase.
  rewrite remove_all_replace_runs; [|intros c Hc|reflexivity].
  2:{ unfold is_boundary. rewrite Hc. apply orb_true_r. }
  unfold strip_ends.
  rewrite remove_all_strip_trailing, remove_all_strip_leading.
  2,3: intros c Hc; unfold is_boundary; rewrite Hc; apply orb_true_r.
  rewrite remove_all_replace_runs; [|intros c Hc|reflexivity].
  2:{ unfold is_boundary. unfold is_space_or_underscore in Hc. now rewrite Hc. }
  rewrite !remove_all_toLowerCase by apply lower_boundary.
  now rewrite remove_all_insert_camel_hyphens.
Qed.

(** X4: the strings [toKebabCase] leaves unchanged are exactly the strings
    of the shape of its results. *)
Theorem X4_toKebabCase_fixed_points (s : jsstring) :
  toKebabCase s = s <-> kebab_shape s = true.
Proof.
  split.
  - intros E. rewrite <- E. apply toKebabCase_shape.
  - apply kebab_shape_fixed.
Qed.

(** ** [toKebabCase]: separators are interchangeable *)

Lemma same_or_boundary_class c d :
  same_or_boundary c d -> is_boundary c = is_boundary d.
Proof. intros [->|[-> ->]]; reflexivity. Qed.

Lemma boundary_not_letter c :
  is_boundary c = true -> is_az c = false /\ is_AZ c = false.
Proof.
  intros H.
  assert (E : forall x, implb (is_boundary x) (negb (is_az x || is_AZ x)) = true)
    by by_all_chars.
  specialize (E c). rewrite H in E. simpl in E.
  now apply negb_true_iff, orb_false_iff in E.
Qed.

Lemma same_or_boundary_letters c d :
  same_or_boundary c d -> is_az c = is_az d /\ is_AZ c = is_AZ d.
Proof.
  intros [->|[Hc Hd]]; [auto|].
  destruct (boundary_not_letter c Hc) as [-> ->].
  destruct (boundary_not_letter d Hd) as [-> ->]. auto.
Qed.

Lemma same_or_boundary_starts s t :
  Forall2 same_or_boundary s t ->
  starts_with is_AZ s = starts_with is_AZ t /\
  starts_with is_boundary s = starts_with is_boundary t.
Proof.
  destruct 1 as [|c d s t H _]; [auto|]. simpl.
  split; [apply same_or_boundary_letters|apply same_or_boundary_class];
    assumption.
Qed.

Lemma same_or_boundary_insert_camel_hyphens s t :
  Forall2 same_or_boundary s t ->
  Forall2 same_or_boundary (insert_camel_hyphens s) (insert_camel_hyphens t).
Proof.
  induction 1 as [|c d s t H Hst IH]; [constructor|].
  rewrite !insert_camel_hyphens_cons.
  destruct (same_or_boundary_letters c d H) as [-> _].
  destruct (same_or_boundary_starts s t Hst) as [-> _].
  destruct (is_az d && starts_with is_AZ t);
    repeat (constructor; try assumption); now left.
Qed.

Lemma same_or_boundary_toLowerCase s t :
  Forall2 same_or_boundary s t ->
  Forall2 same_or_boundary (toLowerCase s) (toLowerCase t).
Proof.
  induction 1 as [|c d s t H _ IH]; [constructor|].
  simpl. constructor; [|assumption].
  destruct H as [->|[Hc Hd]]; [now left|right].
  now rewrite !lower_boundary.
Qed.

Lemma same_or_boundary_split s t :
  Forall2 same_or_boundary s t -> split is_boundary s = split is_boundary t.
Proof.
  induction 1 as [|c d s t H Hst IH]; [reflexivity|].
  rewrite !split_cons, IH.
  destruct (same_or_boundary_starts s t Hst) as [_ ->].
  rewrite (same_or_boundary_class c d H).
  destruct (is_boundary d) eqn:Hd; [reflexivity|].
  destruct H as [->|[_ Hd']]; [reflexivity|congruence].
Qed.

(** X5: on strings of code units up to U+00FF, whitespace, underscores
    and hyphens are interchangeable for [toKebabCase]: two inputs that
    differ only in which of these characters stands at a position have
    the same result.  (Beyond U+00FF the whitespace character U+FEFF is
    ignored by the final-sigma rule of [toLowerCase], unlike the others.) *)
Theorem X5_toKebabCase_separators_interchangeable (s t : jsstring) :
  Forall2 same_or_boundary s t -> toKebabCase s = toKebabCase t.
Proof.
  intros H. rewrite !toKebabCase_words. do 2 f_equal.
  now apply same_or_boundary_split, same_or_boundary_toLowerCase,
    same_or_boundary_insert_camel_hyphens.
Qed.

Lemma separators_exchanged :
  Forall2 same_or_boundary
    (str "Vintage Lamp_no-42") (str "Vintage-Lamp no_42").
Proof.
  repeat constructor; solve [now left | right; split; reflexivity].
Qed.

Lemma X5_toKebabCase_separators_interchangeable_witness :
  Forall2 same_or_boundary
    (str "Vintage Lamp_no-42") (str "Vintage-Lamp no_42") /\
  toKebabCase (str "Vintage Lamp_no-42")
  = toKebabCase (str "Vintage-Lamp no_42").
Proof.
  split; [exact separators_exchanged|].
  apply (X5_toKebabCase_separators_interchangeable
           (str "Vintage Lamp_no-42") (str "Vintage-Lamp no_42")).
  exact separators_exchanged.
Defined.

(** ** [toCamelCase] and [toDotCase]: shape of the results *)

Section Monotone.

Variables p q : ascii -> bool.
Hypothesis q_p : forall c, q c = true -> p c = true.

Lemma starts_with_mono s : starts_with p s = false -> starts_with q s = false.
Proof.
  destruct s as [|c tl]; [reflexivity|]. simpl. intros H.
  destruct (q c) eqn:E; [|reflexivity]. apply q_p in E. congruence.
Qed.

Lemma ends_with_mono s : ends_with p s = false -> ends_with q s = false.
Proof.
  induction s as [|c tl IH]; [reflexivity|]. simpl.
  destruct tl; [|assumption]. intros H.
  destruct (q c) eqn:E; [|reflexivity]. apply q_p in E. congruence.
Qed.

Lemma no_adjacent_mono s : no_adjacent p s = true -> no_adjacent q s = true.
Proof.
  induction s as [|c tl IH]; [reflexivity|]. simpl.
  intros [H1 H2]%andb_true_iff. rewrite (IH H2), andb_true_r.
  apply negb_true_iff, andb_false_iff in H1 as [H1|H1].
  - destruct (q c) eqn:E; [|reflexivity]. apply q_p in E. congruence.
  - rewrite (starts_with_mono tl H1). now rewrite andb_false_r.
Qed.

End Monotone.

Section JoinedWords.

Variable p : ascii -> bool.
Variable d : ascii.

Lemma no_adjacent_word w s :
  forallb (fun c => negb (p c)) w = true ->
  no_adjacent p (w ++ s) = no_adjacent p s.
Proof.
  induction w as [|c tl IH]; [reflexivity|].
  simpl. intros [Hc H]%andb_true_iff. apply negb_true_iff in Hc.
  now rewrite Hc, (IH H).
Qed.

Lemma join_no_adjacent ws :
  Forall (word_ok p) ws -> no_adjacent p (join [d] ws) = true.
Proof.
  induction 1 as [|w rest [Hne Hw] Hrest IH]; [reflexivity|].
  destruct rest as [|w' rest'].
  - simpl. rewrite <- (app_nil_r w), no_adjacent_word by assumption.
    reflexivity.
  - change (join [d] (w :: w' :: rest'))
      with (w ++ d :: join [d] (w' :: rest')).
    rewrite no_adjacent_word by assumption.
    change (no_adjacent p (d :: join [d] (w' :: rest')))
      with (negb (p d && starts_with p (join [d] (w' :: rest')))
            && no_adjacent p (join [d] (w' :: rest'))).
    rewrite IH, (join_starts p d _ Hrest). now rewrite andb_false_r.
Qed.

Lemma join_nil_inv ws :
  Forall (word_ok p) ws -> join [d] ws = [] -> ws = [].
Proof.
  destruct 1 as [|w rest [Hne _] _]; [reflexivity|].
  destruct w; [congruence|]. destruct rest; discriminate.
Qed.

Lemma strip_leading_keeps s c :
  In c s -> p c = false -> In c (strip_leading p s).
Proof.
  intros Hin Hc. induction s as [|x tl IH]; [destruct Hin|].
  simpl. destruct (p x) eqn:Hx; [|assumption].
  destruct Hin as [->|Hin]; [congruence|auto].
Qed.

Lemma strip_trailing_keeps s c :
  In c s -> p c = false -> In c (strip_trailing p s).
Proof.
  intros Hin Hc. induction s as [|x tl IH]; [destruct Hin|].
  rewrite strip_trailing_cons.
  destruct Hin as [->|Hin].
  - rewrite Hc, andb_false_r. now left.
  - specialize (IH Hin).
    destruct (strip_trailing p tl); [destruct IH|]. simpl. now right.
Qed.

End JoinedWords.

Section WordsOf.

Import CaseUtils.

Lemma kept_word_chars c :
  is_kept c = true -> is_separator c = false -> is_alnum c = true.
Proof.
  unfold is_kept, is_alnum. intros H Hs. now rewrite Hs, orb_false_r in H.
Qed.

Lemma alnum_kept c :
  is_alnum c = true -> is_kept c = true /\ is_separator c = false.
Proof.
  intros H.
  assert (E : forall x, implb (is_alnum x)
            (is_kept x && negb (is_separator x)) = true) by by_all_chars.
  specialize (E c). rewrite H in E. simpl in E.
  apply andb_true_iff in E as [-> E]. now apply negb_true_iff in E.
Qed.

Lemma words_of_alnum s w c : In w (words_of s) -> In c w -> is_alnum c = true.
Proof.
  intros Hw Hc. apply kept_word_chars.
  - now apply (words_of_kept s w).
  - pose proof (words_of_ok s) as H. rewrite List.Forall_forall in H.
    destruct (H w Hw) as [_ Hall]. rewrite forallb_forall in Hall.
    now apply negb_true_iff, Hall.
Qed.

Lemma lower_alnum c :
  is_alnum c = true -> is_lower_alnum (toLowerChar c) = true.
Proof. apply implb_true_iff. revert c. by_all_chars. Qed.

Lemma upper_alnum c :
  is_alnum c = true -> forallb is_alnum (toUpperChar c) = true.
Proof. apply implb_true_iff. revert c. by_all_chars. Qed.

Lemma lower_alnum_alnum c : is_lower_alnum c = true -> is_alnum c = true.
Proof. apply implb_true_iff. revert c. by_all_chars. Qed.

Lemma lower_alnum_not_AZ c : is_lower_alnum c = true -> is_AZ c = false.
Proof.
  intros H. apply negb_true_iff. revert H. apply implb_true_iff.
  revert c. by_all_chars.
Qed.

Lemma camel_word_alnum w i c :
  (forall x, In x w -> is_alnum x = true) ->
  In c (camel_word w i) -> is_alnum c = true.
Proof.
  intros Hw. unfold camel_word.
  assert (Hl : forall x, In x (toLowerCase w) -> is_alnum x = true).
  { intros x (x' & <- & Hx)%in_map_iff.
    now apply lower_alnum_alnum, lower_alnum, Hw. }
  destruct (i =? 0)%nat; [apply Hl|].
  rewrite in_app_iff. intros [H|H].
  - destruct (toLowerCase w) as [|x r]; [destruct H|].
    simpl in H. rewrite app_nil_r in H.
    pose proof (upper_alnum x (Hl x (or_introl eq_refl))) as Hu.
    rewrite forallb_forall in Hu. now apply Hu.
  - apply Hl. destruct (toLowerCase w); [destruct H|]. now right.
Qed.

Lemma mapi_from_In {A B} (f : A -> nat -> B) i l y :
  In y (mapi_from f i l) -> exists x j, In x l /\ y = f x j.
Proof.
  revert i. induction l as [|x rest IH]; intros i; [intros []|].
  simpl. intros [<-|H].
  - exists x, i. auto.
  - destruct (IH _ H) as (x' & j & ? & ?). exists x', j. auto.
Qed.

Lemma words_of_nil_iff s :
  words_of s = [] <-> forallb (fun c => negb (is_alnum c)) s = true.
Proof.
  split.
  - intros E. apply forallb_forall. intros c Hc.
    destruct (is_alnum c) eqn:Ha; [exfalso|reflexivity].
    destruct (alnum_kept c Ha) as [Hk Hs].
    assert (Hin : In c (strip_ends is_separator
                          (remove_all (fun c => negb (is_kept c)) s))).
    { unfold strip_ends.
      apply strip_trailing_keeps; [|assumption].
      apply strip_leading_keeps; [|assumption].
      unfold remove_all. apply List.filter_In. now rewrite Hk. }
    apply (f_equal (@concat ascii)) in E. unfold words_of in E.
    rewrite concat_filter_has_length, concat_split in E. simpl in E.
    apply remove_all_nil in E. rewrite forallb_forall in E.
    specialize (E c Hin). congruence.
  - intros H. rewrite forallb_forall in H.
    unfold words_of. rewrite strip_ends_all; [reflexivity|].
    apply forallb_forall. intros c [Hc Hk]%remove_all_subset.
    apply negb_false_iff in Hk. specialize (H c Hc).
    apply negb_true_iff in H. unfold is_kept in Hk. unfold is_alnum in H.
    now rewrite H in Hk.
Qed.

Lemma camel_join_nil_inv ws :
  Forall (word_ok is_separator) ws ->
  join [] (mapi camel_word ws) = [] -> ws = [].
Proof.
  destruct 1 as [|w rest [Hne _] _]; [reflexivity|].
  rewrite join_nil. unfold mapi. simpl.
  destruct w; [congruence|discriminate].
Qed.

Lemma toDotCase_In s c :
  In c (toDotCase s) -> is_lower_alnum c = true \/ c = ".".
Proof.
  rewrite toDotCase_words. intros [[<-|[]]|(w & Hw & Hc)]%join_In; [auto|].
  left. apply in_map_iff in Hw as (w' & <- & Hw').
  apply in_map_iff in Hc as (c' & <- & Hc').
  now apply lower_alnum, (words_of_alnum s w').
Qed.

Lemma lower_words_ok s :
  Forall (word_ok is_separator) (map toLowerCase (words_of s)).
Proof.
  pose proof (words_of_ok s) as H. induction H; constructor;
    [now apply lower_word_ok|assumption].
Qed.

Lemma separator_of_dot c : is_dot c = true -> is_separator c = true.
Proof. unfold is_separator. intros ->. apply orb_true_r. Qed.

End WordsOf.

(** X6: whatever the input, the result of [toDotCase] consists of
    lowercase ASCII letters, digits and dots only, has no dot at either
    end and no two dots in a row. *)
Theorem X6_toDotCase_result_shape (s : jsstring) :
  dot_shape (CaseUtils.toDotCase s) = true.
Proof.
  unfold dot_shape. repeat (apply andb_true_iff; split).
  - apply forallb_forall. intros c [->| ->]%toDotCase_In; reflexivity.
  - apply negb_true_iff. rewrite toDotCase_words.
    apply (starts_with_mono CaseUtils.is_separator is_dot separator_of_dot).
    apply join_starts, lower_words_ok.
  - apply negb_true_iff. rewrite toDotCase_words.
    apply (ends_with_mono CaseUtils.is_separator is_dot separator_of_dot).
    apply join_ends, lower_words_ok.
  - rewrite toDotCase_words.
    apply (no_adjacent_mono CaseUtils.is_separator is_dot separator_of_dot).
    apply join_no_adjacent, lower_words_ok.
Qed.

(** X7: [toDotCase] is idempotent. *)
Theorem X7_toDotCase_idempotent (s : jsstring) :
  CaseUtils.toDotCase (CaseUtils.toDotCase s) = CaseUtils.toDotCase s.
Proof.
  rewrite (toDotCase_words (CaseUtils.toDotCase s)), toDotCase_words.
  rewrite words_of_join.
  - f_equal. rewrite map_map. apply map_ext. apply toLowerCase_idempotent.
  - apply lower_words_ok.
  - intros w c (w' & <- & Hw)%in_map_iff (c' & <- & Hc)%in_map_iff.
    apply lower_kept. now apply (words_of_kept s w').
Qed.

Lemma toCamelCase_alnum s :
  forallb is_alnum (CaseUtils.toCamelCase s) = true.
Proof.
  rewrite toCamelCase_words.
  apply forallb_forall. intros c [[]|(w & Hw & Hc)]%join_In.
  apply mapi_from_In in Hw as (w' & j & Hw' & ->).
  apply (camel_word_alnum w' j c); [|assumption].
  intros x Hx. now apply (words_of_alnum s w').
Qed.

(** X8: whatever the input, the result of the documented [toCamelCase]
    consists of ASCII letters and digits only and does not begin with an
    uppercase letter. *)
Theorem X8_toCamelCase_result_shape (s : jsstring) :
  forallb is_alnum (CaseUtils.toCamelCase s) = true /\
  starts_with is_AZ (CaseUtils.toCamelCase s) = false.
Proof.
  split; [apply toCamelCase_alnum|].
  rewrite toCamelCase_words.
  - rewrite join_nil. unfold mapi.
    pose proof (words_of_ok s) as Hok.
    destruct (CaseUtils.words_of s) as [|w rest] eqn:E; [reflexivity|].
    inversion Hok as [|? ? [Hne _] _]; subst.
    destruct w as [|c tl]; [congruence|]. simpl.
    apply lower_alnum_not_AZ, lower_alnum, (words_of_alnum s (c :: tl)).
    + rewrite E. now left.
    + now left.
Qed.

(** X9: the documented [toCamelCase] and [toDotCase] return the empty
    string exactly for the inputs without any ASCII letter or digit: the
    empty string, strings of separators, and strings of separators and
    special characters. *)
Theorem X9_empty_results (s : jsstring) :
  (CaseUtils.toCamelCase s = []
   <-> forallb (fun c => negb (is_alnum c)) s = true) /\
  (CaseUtils.toDotCase s = []
   <-> forallb (fun c => negb (is_alnum c)) s = true).
Proof.
  rewrite <- words_of_nil_iff, toCamelCase_words, toDotCase_words.
  split; split.
  - apply camel_join_nil_inv, words_of_ok.
  - now intros ->.
  - intros H. apply (join_nil_inv CaseUtils.is_separator) in H;
      [|apply lower_words_ok].
    now destruct (CaseUtils.words_of s).
  - now intros ->.
Qed.

(** ** Mapping the characters before cutting *)

Section MapCommute.

Variable f : ascii -> ascii.
Variable p : ascii -> bool.
Hypothesis p_f : forall c, p (f c) = p c.

Lemma starts_with_map s : starts_with p (map f s) = starts_with p s.
Proof. destruct s; [reflexivity|apply p_f]. Qed.

Lemma strip_leading_map s :
  strip_leading p (map f s) = map f (strip_leading p s).
Proof.
  induction s as [|c tl IH]; [reflexivity|].
  simpl. rewrite p_f, IH. now destruct (p c).
Qed.

Lemma strip_trailing_map s :
  strip_trailing p (map f s) = map f (strip_trailing p s).
Proof.
  induction s as [|c tl IH]; [reflexivity|].
  change (map f (c :: tl)) with (f c :: map f tl).
  rewrite !strip_trailing_cons, IH, p_f.
  destruct (strip_trailing p tl); simpl; [destruct (p c)|]; reflexivity.
Qed.

Lemma strip_ends_map s : strip_ends p (map f s) = map f (strip_ends p s).
Proof. unfold strip_ends. now rewrite strip_leading_map, strip_trailing_map. Qed.

Lemma filter_map_chars s : List.filter p (map f s) = map f (List.filter p s).
Proof.
  induction s as [|c tl IH]; [reflexivity|].
  simpl. rewrite p_f, IH. now destruct (p c).
Qed.

Lemma split_map s : split p (map f s) = map (map f) (split p s).
Proof.
  induction s as [|c tl IH]; [reflexivity|].
  change (map f (c :: tl)) with (f c :: map f tl).
  rewrite !split_cons, p_f, starts_with_map, IH.
  destruct (p c); [now destruct (starts_with p tl)|].
  now destruct (split p tl).
Qed.

End MapCommute.

Lemma filter_has_length_map (f : ascii -> ascii) (ws : list jsstring) :
  List.filter CaseUtils.has_length (map (map f) ws)
  = map (map f) (List.filter CaseUtils.has_length ws).
Proof.
  induction ws as [|w rest IH]; [reflexivity|].
  simpl. rewrite IH. now destruct w.
Qed.

Lemma remove_all_negb q s :
  remove_all (fun c => negb (q c)) s = List.filter q s.
Proof.
  unfold remove_all. apply List.filter_ext. intros c. apply negb_involutive.
Qed.

Section MoreWords.

Import CaseUtils.

Lemma words_of_join_by d ws :
  is_separator d = true ->
  Forall (word_ok is_separator) ws ->
  (forall w c, In w ws -> In c w -> is_kept c = true) ->
  words_of (join [d] ws) = ws.
Proof.
  intros Hd Hok Hkept. destruct ws as [|w0 rest]; [reflexivity|].
  unfold words_of. rewrite remove_all_id.
  - rewrite strip_ends_id by (now apply join_starts || now apply join_ends).
    rewrite split_join by (assumption || discriminate).
    now apply filter_has_length_words with (p := is_separator).
  - apply forallb_forall. intros c Hc. rewrite negb_involutive.
    apply join_In in Hc as [[<-|[]]|(w & Hw & Hc)].
    + unfold is_kept. rewrite Hd. apply orb_true_r.
    + now apply (Hkept w).
Qed.

Lemma lower_words_kept s w c :
  In w (map toLowerCase (words_of s)) -> In c w -> is_kept c = true.
Proof.
  intros (w' & <- & Hw)%in_map_iff (c' & <- & Hc)%in_map_iff.
  apply lower_kept. now apply (words_of_kept s w').
Qed.

End MoreWords.

Lemma toAsciiLower_kept c :
  CaseUtils.is_kept (toAsciiLower c) = CaseUtils.is_kept c.
Proof. apply eqb_prop. revert c. by_all_chars. Qed.

Lemma toAsciiLower_separator c :
  CaseUtils.is_separator (toAsciiLower c) = CaseUtils.is_separator c.
Proof. apply eqb_prop. revert c. by_all_chars. Qed.

Lemma toAsciiLower_boundary c :
  is_boundary (toAsciiLower c) = is_boundary c.
Proof. apply eqb_prop. revert c. by_all_chars. Qed.

Lemma toLowerChar_toAsciiLower c :
  toLowerChar (toAsciiLower c) = toLowerChar c.
Proof. apply Ascii.eqb_eq. revert c. by_all_chars. Qed.

Lemma toLowerCase_toAsciiLower w :
  toLowerCase (map toAsciiLower w) = toLowerCase w.
Proof.
  unfold toLowerCase. rewrite map_map. apply map_ext.
  apply toLowerChar_toAsciiLower.
Qed.

Lemma camel_word_toAsciiLower w i :
  camel_word (map toAsciiLower w) i = camel_word w i.
Proof. unfold camel_word. now rewrite toLowerCase_toAsciiLower. Qed.

Lemma mapi_from_camel_word_toAsciiLower i ws :
  mapi_from camel_word i (map (map toAsciiLower) ws)
  = mapi_from camel_word i ws.
Proof.
  revert i. induction ws as [|w rest IH]; intros i; [reflexivity|].
  simpl. now rewrite IH, camel_word_toAsciiLower.
Qed.

Lemma words_of_toAsciiLower s :
  CaseUtils.words_of (map toAsciiLower s)
  = map (map toAsciiLower) (CaseUtils.words_of s).
Proof.
  unfold CaseUtils.words_of. rewrite !remove_all_negb.
  rewrite (filter_map_chars _ _ toAsciiLower_kept).
  rewrite (strip_ends_map _ _ toAsciiLower_separator).
  rewrite (split_map _ _ toAsciiLower_separator).
  apply filter_has_length_map.
Qed.

(** X10: the documented [toCamelCase] and [toDotCase] ignore the case of
    the ASCII letters of the input: replacing every uppercase ASCII letter
    by its lowercase form first changes neither result, so a
    lowercase-to-uppercase transition inside a word never starts a new
    word. *)
Theorem X10_case_of_input_ignored (s : jsstring) :
  CaseUtils.toCamelCase (map toAsciiLower s) = CaseUtils.toCamelCase s /\
  CaseUtils.toDotCase (map toAsciiLower s) = CaseUtils.toDotCase s.
Proof.
  rewrite !toCamelCase_words, !toDotCase_words, words_of_toAsciiLower.
  split.
  - unfold mapi. apply f_equal, mapi_from_camel_word_toAsciiLower.
  - f_equal. rewrite map_map. apply map_ext, toLowerCase_toAsciiLower.
Qed.

(** X11: characters outside letters, digits and separators never
    influence the documented [toCamelCase] and [toDotCase]: two inputs
    that are equal once these characters are deleted have the same
    results. *)
Theorem X11_special_characters_ignored (s t : jsstring) :
  List.filter CaseUtils.is_kept s = List.filter CaseUtils.is_kept t ->
  CaseUtils.toCamelCase s = CaseUtils.toCamelCase t /\
  CaseUtils.toDotCase s = CaseUtils.toDotCase t.
Proof.
  intros E.
  assert (Hw : CaseUtils.words_of s = CaseUtils.words_of t).
  { unfold CaseUtils.words_of. now rewrite !remove_all_negb, E. }
  now rewrite !toCamelCase_words, !toDotCase_words, Hw.
Qed.

Lemma X11_special_characters_ignored_witness :
  List.filter CaseUtils.is_kept (str "hello@world!test x")
  = List.filter CaseUtils.is_kept (str "hel#lo$world%test x") /\
  CaseUtils.toCamelCase (str "hello@world!test x")
  = CaseUtils.toCamelCase (str "hel#lo$world%test x") /\
  CaseUtils.toDotCase (str "hello@world!test x")
  = CaseUtils.toDotCase (str "hel#lo$world%test x").
Proof.
  split; [reflexivity|].
  apply (X11_special_characters_ignored
           (str "hello@world!test x") (str "hel#lo$world%test x")).
  reflexivity.
Defined.

Lemma no_hyphen_no_double s :
  forallb (fun c => negb (is_hyphen c)) s = true -> no_double_hyphen s = true.
Proof.
  induction s as [|c tl IH]; [reflexivity|].
  simpl. intros [Hc H]%andb_true_iff. apply negb_true_iff in Hc.
  now rewrite Hc, (IH H).
Qed.

Lemma dot_case_char c :
  is_lower_alnum c = true \/ c = "." ->
  is_lowered c && negb (is_space_or_underscore c) = true /\
  is_hyphen c = false.
Proof.
  intros [H| ->]; [|split; reflexivity].
  assert (E : forall x, implb (is_lower_alnum x)
            (is_lowered x && negb (is_space_or_underscore x)
             && negb (is_hyphen x)) = true) by by_all_chars.
  specialize (E c). rewrite H in E. simpl in E.
  apply andb_true_iff in E as [-> E]. now apply negb_true_iff in E.
Qed.

(** X12: [toKebabCase] leaves every result of [toDotCase] unchanged. *)
Theorem X12_toKebabCase_of_toDotCase (s : jsstring) :
  toKebabCase (CaseUtils.toDotCase s) = CaseUtils.toDotCase s.
Proof.
  apply kebab_shape_fixed. unfold kebab_shape.
  assert (Hh : forallb (fun c => negb (is_hyphen c)) (CaseUtils.toDotCase s)
               = true).
  { apply forallb_forall. intros c Hc%toDotCase_In.
    apply negb_true_iff. now apply dot_case_char. }
  rewrite (starts_with_forallb_neg _ _ Hh), (ends_with_forallb_neg _ _ Hh).
  rewrite (no_hyphen_no_double _ Hh), !andb_true_r.
  apply forallb_forall. intros c Hc%toDotCase_In. now apply dot_case_char.
Qed.

Lemma toKebabCase_of_title s :
  forallb is_title_char s = true ->
  has_camel_transition s = false ->
  toKebabCase s = join ["-"] (map toLowerCase (CaseUtils.words_of s)).
Proof.
  intros Ht Hc. rewrite toKebabCase_words, insert_camel_hyphens_id by assumption.
  rewrite title_words_of by assumption. f_equal.
  unfold toLowerCase at 1. rewrite (split_map _ _ lower_boundary).
  apply filter_has_length_map.
Qed.

(** X13: on a title made of ASCII letters, digits, whitespace,
    underscores and hyphens in which no lowercase letter is directly
    followed by an uppercase letter, converting to kebab-case first
    changes neither the camelCase nor the dot.case result. *)
Theorem X13_toKebabCase_then_convert (s : jsstring) :
  forallb is_title_char s = true ->
  has_camel_transition s = false ->
  CaseUtils.toCamelCase (toKebabCase s) = CaseUtils.toCamelCase s /\
  CaseUtils.toDotCase (toKebabCase s) = CaseUtils.toDotCase s.
Proof.
  intros Ht Hc. rewrite (toKebabCase_of_title s Ht Hc).
  rewrite !toCamelCase_words, !toDotCase_words.
  rewrite words_of_join_by;
    [|reflexivity|apply lower_words_ok|apply lower_words_kept].
  split.
  - unfold mapi. apply f_equal, mapi_from_camel_word_lower.
  - f_equal. rewrite map_map. apply map_ext, toLowerCase_idempotent.
Qed.

Lemma X13_toKebabCase_then_convert_witness :
  forallb is_title_char (str " SCREEN_name - mobile  Number2 ") = true /\
  has_camel_transition (str " SCREEN_name - mobile  Number2 ") = false /\
  CaseUtils.toCamelCase (toKebabCase (str " SCREEN_name - mobile  Number2 "))
  = CaseUtils.toCamelCase (str " SCREEN_name - mobile  Number2 ") /\
  CaseUtils.toDotCase (toKebabCase (str " SCREEN_name - mobile  Number2 "))
  = CaseUtils.toDotCase (str " SCREEN_name - mobile  Number2 ").
Proof.
  split; [reflexivity|]. split; [reflexivity|].
  apply (X13_toKebabCase_then_convert (str " SCREEN_name - mobile  Number2 "));
    reflexivity.
Defined.

(** ** [toCamelCase] of few_shot_prompt.js *)

Lemma camel_word_nil i : camel_word [] i = [].
Proof. unfold camel_word. now destruct (i =? 0)%nat. Qed.

Lemma camel_word_nil_inv w i : camel_word w i = [] -> w = [].
Proof.
  unfold camel_word. destruct w as [|c tl]; [reflexivity|].
  destruct (i =? 0)%nat; [discriminate|]. simpl.
  unfold toUpperChar.
  destruct (is_az _ || is_latin1_lower _); [discriminate|].
  destruct (code _ =? 223)%N; discriminate.
Qed.

Lemma mapi_from_app {A B} (f : A -> nat -> B) i l l' :
  mapi_from f i (l ++ l') = mapi_from f i l ++ mapi_from f (i + length l) l'.
Proof.
  revert i. induction l as [|x rest IH]; intros i.
  - simpl. now rewrite Nat.add_0_r.
  - simpl. rewrite IH. do 3 f_equal. lia.
Qed.

Lemma camel_join_snoc ws :
  join [] (mapi camel_word (ws ++ [[]])) = join [] (mapi camel_word ws).
Proof.
  unfold mapi. rewrite mapi_from_app, !join_nil, concat_app. simpl.
  now rewrite camel_word_nil, !app_nil_r.
Qed.

Lemma camel_join_nil_iff ws :
  join [] (mapi camel_word ws) = [] <-> concat ws = [].
Proof.
  rewrite join_nil. unfold mapi. generalize 0.
  induction ws as [|w rest IH]; intros i; [tauto|].
  simpl. split.
  - intros [H1 H2]%app_eq_nil. apply camel_word_nil_inv in H1.
    subst w. now apply IH in H2.
  - intros [-> H2]%app_eq_nil. rewrite camel_word_nil. simpl.
    now apply IH.
Qed.

Lemma upper_not_boundary c :
  is_boundary c = false ->
  forallb (fun x => negb (is_boundary x)) (toUpperChar c) = true.
Proof.
  intros H.
  assert (E : forall x, implb (negb (is_boundary x))
            (forallb (fun y => negb (is_boundary y)) (toUpperChar x)) = true)
    by by_all_chars.
  specialize (E c). now rewrite H in E.
Qed.

Lemma camel_word_no_boundary w i c :
  (forall x, In x w -> is_boundary x = false) ->
  In c (camel_word w i) -> is_boundary c = false.
Proof.
  intros Hw. unfold camel_word.
  assert (Hl : forall x, In x (toLowerCase w) -> is_boundary x = false).
  { intros x (x' & <- & Hx)%in_map_iff. rewrite lower_boundary. now apply Hw. }
  destruct (i =? 0)%nat; [apply Hl|].
  rewrite in_app_iff. intros [H|H].
  - destruct (toLowerCase w) as [|x r]; [destruct H|].
    simpl in H. rewrite app_nil_r in H.
    pose proof (upper_not_boundary x (Hl x (or_introl eq_refl))) as Hu.
    rewrite forallb_forall in Hu. now apply negb_true_iff, Hu.
  - apply Hl. destruct (toLowerCase w); [destruct H|]. now right.
Qed.

Lemma remove_all_all q s : forallb q s = true -> remove_all q s = [].
Proof.
  unfold remove_all. induction s as [|c tl IH]; [reflexivity|].
  simpl. intros [-> H]%andb_true_iff. simpl. auto.
Qed.

(** X14: whatever the input, the result of the [toCamelCase] of
    few_shot_prompt.js contains no whitespace, underscore or hyphen. *)
Theorem X14_few_shot_no_separator_left (s : jsstring) :
  forallb (fun c => negb (is_boundary c)) (FewShot.toCamelCase s) = true.
Proof.
  apply forallb_forall. intros c Hc. apply negb_true_iff.
  unfold FewShot.toCamelCase in Hc.
  apply join_In in Hc as [[]|(w & Hw & Hc)].
  apply mapi_from_In in Hw as (w' & j & Hw' & ->).
  apply (camel_word_no_boundary w' j c); [|assumption].
  intros x Hx. now destruct (split_pieces _ _ _ _ Hw' Hx).
Qed.

(** X15: the [toCamelCase] of few_shot_prompt.js returns the empty string
    exactly for the inputs made only of whitespace, underscores and
    hyphens (the empty string among them). *)
Theorem X15_few_shot_empty_result (s : jsstring) :
  FewShot.toCamelCase s = [] <-> forallb is_boundary s = true.
Proof.
  unfold FewShot.toCamelCase. rewrite camel_join_nil_iff, concat_split.
  split.
  - apply remove_all_nil.
  - apply remove_all_all.
Qed.

(** X16: the [toCamelCase] of few_shot_prompt.js ignores the case of the
    ASCII letters of the input: replacing every uppercase ASCII letter by
    its lowercase form first does not change the result. *)
Theorem X16_few_shot_case_ignored (s : jsstring) :
  FewShot.toCamelCase (map toAsciiLower s) = FewShot.toCamelCase s.
Proof.
  unfold FewShot.toCamelCase.
  rewrite (split_map toAsciiLower FewShot.is_separator toAsciiLower_boundary).
  unfold mapi. apply f_equal, mapi_from_camel_word_toAsciiLower.
Qed.

(** X17: separators at the end of the input never change the result of
    the [toCamelCase] of few_shot_prompt.js (separators at the start do:
    they make it capitalize the first word). *)
Theorem X17_few_shot_trailing_separators (s : jsstring) :
  FewShot.toCamelCase (strip_trailing is_boundary s) = FewShot.toCamelCase s.
Proof.
  unfold FewShot.toCamelCase.
  destruct (split_strip_trailing FewShot.is_separator s) as [->| ->];
    [reflexivity|].
  symmetry. apply camel_join_snoc.
Qed.

(** ** The comments router: what a deletion leaves *)

Section RouterMore.

Import Comments.

Lemma find_has_id_Some id cs c :
  List.find (has_id id) cs = Some c -> In c cs /\ _id c = id.
Proof.
  intros [H1 H2]%List.find_some. split; [assumption|].
  now apply Nat.eqb_eq.
Qed.

Lemma find_has_id_None id cs :
  List.find (has_id id) cs = None -> ~ In id (map _id cs).
Proof.
  intros H (c & Hc & Hin)%in_map_iff.
  pose proof (List.find_none _ _ H c Hin) as E.
  unfold has_id in E. apply Nat.eqb_neq in E. congruence.
Qed.

Lemma has_id_true id c : has_id id c = true <-> _id c = id.
Proof. apply Nat.eqb_eq. Qed.

Lemma has_id_absent id c cs :
  ~ In id (map _id (c :: cs)) ->
  has_id id c = false /\ ~ In id (map _id cs).
Proof.
  simpl. intros H. split; [|tauto].
  destruct (has_id id c) eqn:E; [|reflexivity].
  apply has_id_true in E. tauto.
Qed.

Lemma remove_first_absent id cs :
  ~ In id (map _id cs) -> remove_first id cs = cs.
Proof.
  induction cs as [|c rest IH]; [reflexivity|].
  intros [E H]%has_id_absent. simpl. now rewrite E, IH.
Qed.

Lemma filter_absent id cs :
  ~ In id (map _id cs) ->
  List.filter (fun c => negb (has_id id c)) cs = cs.
Proof.
  induction cs as [|c rest IH]; [reflexivity|].
  intros [E H]%has_id_absent. simpl. rewrite E. simpl. now rewrite IH.
Qed.

Lemma remove_first_filter id cs :
  NoDup (map _id cs) ->
  remove_first id cs = List.filter (fun c => negb (has_id id c)) cs.
Proof.
  induction cs as [|c rest IH]; [reflexivity|].
  change (map _id (c :: rest)) with (_id c :: map _id rest).
  intros [Hc Hrest]%NoDup_cons. simpl.
  destruct (has_id id c) eqn:E; simpl.
  - apply has_id_true in E. subst id. symmetry. apply filter_absent.
    now rewrite <- list_elem_of_In.
  - now rewrite IH.
Qed.

Lemma router_delete_docs db req :
  fault db = None ->
  docs (router_delete db req).1 = remove_first (params_id req) (docs db) /\
  fault (router_delete db req).1 = None.
Proof.
  intros Hf. unfold router_delete, Comment_findByIdAndDelete. rewrite Hf.
  destruct (List.find _ _) eqn:E; simpl; [auto|].
  rewrite remove_first_absent by now apply find_has_id_None.
  auto.
Qed.

Lemma find_filter_out id cs :
  List.find (has_id id) (List.filter (fun c => negb (has_id id c)) cs) = None.
Proof.
  induction cs as [|c rest IH]; [reflexivity|].
  simpl. destruct (has_id id c) eqn:E; simpl; [assumption|].
  now rewrite E.
Qed.

End RouterMore.

(** X18: the delete route answers 204 exactly when the store is available
    and holds a comment of the requested id; with any other answer (404,
    500) the store is left as it was. *)
Theorem X18_router_delete_answers (db : Comments.Db) (req : Comments.Request) :
  (Comments.status (Comments.router_delete db req).2 = 204 <->
   Comments.fault db = None /\
   exists c, In c (Comments.docs db) /\
             Comments._id c = Comments.params_id req) /\
  (Comments.status (Comments.router_delete db req).2 <> 204 ->
   (Comments.router_delete db req).1 = db).
Proof.
  unfold Comments.router_delete, Comments.Comment_findByIdAndDelete.
  destruct (Comments.fault db) as [err|] eqn:Hf.
  - simpl. split; [|reflexivity]. split; [discriminate|]. now intros [? _].
  - destruct (List.find _ _) as [c|] eqn:E; simpl.
    + split; [|congruence]. split; [|reflexivity]. intros _.
      split; [reflexivity|]. exists c. now apply find_has_id_Some.
    + split; [|reflexivity]. split; [discriminate|].
      intros [_ (c & Hc & Hid)]. apply find_has_id_None in E.
      exfalso. apply E. rewrite <- Hid. now apply in_map.
Qed.

(** X19: in an available store whose comments have distinct ids, the
    delete route removes exactly the comments of the requested id and
    keeps the others in their order: listing the comments afterwards
    answers 200 with the comments of all other ids. *)
Theorem X19_list_after_delete
  (db : Comments.Db) (req req' : Comments.Request) :
  Comments.fault db = None ->
  NoDup (map Comments._id (Comments.docs db)) ->
  (Comments.router_get (Comments.router_delete db req).1 req').2 =
    {| Comments.status := 200;
       Comments.sent :=
         Comments.JComments
           (List.filter
              (fun c => negb (Comments.has_id (Comments.params_id req) c))
              (Comments.docs db)) |}.
Proof.
  intros Hf Hnd. destruct (router_delete_docs db req Hf) as [Hd Hf'].
  unfold Comments.router_get, Comments.Comment_find. rewrite Hf'. simpl.
  now rewrite Hd, remove_first_filter.
Qed.

Lemma X19_list_after_delete_witness :
  Comments.fault Samples2.three_comments = None /\
  NoDup (map Comments._id (Comments.docs Samples2.three_comments)) /\
  (Comments.router_get
     (Comments.router_delete Samples2.three_comments
        Samples2.request_for_8).1 Samples2.request_for_42).2 =
    {| Comments.status := 200;
       Comments.sent :=
         Comments.JComments
           (List.filter
              (fun c => negb (Comments.has_id
                                (Comments.params_id Samples2.request_for_8) c))
              (Comments.docs Samples2.three_comments)) |}.
Proof.
  assert (H : NoDup (map Comments._id (Comments.docs Samples2.three_comments))).
  { apply (bool_decide_unpack _). vm_compute. exact I. }
  split; [reflexivity|]. split; [exact H|].
  apply (X19_list_after_delete Samples2.three_comments
           Samples2.request_for_8 Samples2.request_for_42);
    [reflexivity|exact H].
Defined.

(** X20: a deletion is not repeatable: when the comments of the store
    have distinct ids and a delete request was answered 204, the same
    request sent again is answered 404 and changes nothing. *)
Theorem X20_delete_twice (db : Comments.Db) (req : Comments.Request) :
  NoDup (map Comments._id (Comments.docs db)) ->
  Comments.status (Comments.router_delete db req).2 = 204 ->
  Comments.router_delete (Comments.router_delete db req).1 req =
    ((Comments.router_delete db req).1,
     {| Comments.status := 404;
        Comments.sent := Comments.JError "Comment not found" |}).
Proof.
  intros Hnd H204.
  assert (Hf : Comments.fault db = None).
  { revert H204. unfold Comments.router_delete,
      Comments.Comment_findByIdAndDelete.
    destruct (Comments.fault db); [discriminate|reflexivity]. }
  destruct (router_delete_docs db req Hf) as [Hd Hf'].
  unfold Comments.router_delete at 1, Comments.Comment_findByIdAndDelete.
  rewrite Hf', Hd, remove_first_filter by assumption.
  now rewrite find_filter_out.
Qed.

Lemma X20_delete_twice_witness :
  NoDup (map Comments._id (Comments.docs Samples2.three_comments)) /\
  Comments.status
    (Comments.router_delete Samples2.three_comments
       Samples2.request_for_8).2 = 204 /\
  Comments.router_delete
    (Comments.router_delete Samples2.three_comments Samples2.request_for_8).1
    Samples2.request_for_8 =
    ((Comments.router_delete Samples2.three_comments Samples2.request_for_8).1,
     {| Comments.status := 404;
        Comments.sent := Comments.JError "Comment not found" |}).
Proof.
  assert (H : NoDup (map Comments._id (Comments.docs Samples2.three_comments))).
  { apply (bool_decide_unpack _). vm_compute. exact I. }
  split; [exact H|]. split; [reflexivity|].
  apply (X20_delete_twice Samples2.three_comments Samples2.request_for_8);
    [exact H|reflexivity].
Defined.

(** ** [addNumbers] *)

Section Adding.

Import Numbers.

Lemma addNumbers_numbers x y :
  addNumbers (VNumber x) (VNumber y) =
  if PrimFloat.is_nan x || PrimFloat.is_nan y
  then Thrown (NaNNotAllowed x y)
  else Returned (PrimFloat.add x y).
Proof. reflexivity. Qed.

End Adding.

(** X21: [addNumbers] returns a value exactly when both arguments are
    numbers and neither is NaN, and the value is then their
    floating-point sum; for every other pair of arguments it throws: null,
    undefined, strings, booleans, objects and NaN never reach the
    addition. *)
Theorem X21_addNumbers_returns (a b : Numbers.value) (sum : PrimFloat.float) :
  Numbers.addNumbers a b = Numbers.Returned sum <->
  exists x y,
    a = Numbers.VNumber x /\ b = Numbers.VNumber y /\
    PrimFloat.is_nan x = false /\ PrimFloat.is_nan y = false /\
    sum = PrimFloat.add x y.
Proof.
  split.
  - intros H.
    destruct a as [| | |x| | | |pa|pa], b as [| | |y| | | |pb|pb];
      try discriminate H;
      try (simpl in H; destruct pa; discriminate H);
      try (simpl in H; destruct pb; discriminate H).
    rewrite addNumbers_numbers in H.
    destruct (PrimFloat.is_nan x) eqn:Hx; [discriminate|].
    destruct (PrimFloat.is_nan y) eqn:Hy; [discriminate|].
    simpl in H. injection H as <-. exists x, y. auto.
  - intros (x & y & -> & -> & Hx & Hy & ->).
    now rewrite addNumbers_numbers, Hx, Hy.
Qed.

(** ** From kebab-case to camelCase and back *)

Lemma az_implies (P : ascii -> bool) :
  forallb (fun x => implb (is_az x) (P x)) all_chars = true ->
  forall c, is_az c = true -> P c = true.
Proof.
  intros H c Hc. pose proof (forall_chars _ H c) as E.
  cbv beta in E. now rewrite Hc in E.
Qed.

Lemma az_upper c :
  is_az c = true ->
  exists u, toUpperChar c = [u] /\ is_AZ u = true /\ is_az u = false /\
            toLowerChar u = c.
Proof.
  intros H. exists (ascii_of_N (code c - 32)).
  split; [unfold toUpperChar; now rewrite H|].
  pose proof (az_implies
    (fun x => is_AZ (ascii_of_N (code x - 32))
              && negb (is_az (ascii_of_N (code x - 32)))
              && Ascii.eqb (toLowerChar (ascii_of_N (code x - 32))) x)
    eq_refl c H) as E.
  apply andb_true_iff in E as [[E1 E2]%andb_true_iff E3].
  apply negb_true_iff in E2. apply Ascii.eqb_eq in E3. auto.
Qed.

Lemma az_facts c :
  is_az c = true ->
  is_AZ c = false /\ toLowerChar c = c /\ is_boundary c = false /\
  CaseUtils.is_separator c = false /\ CaseUtils.is_kept c = true /\
  exists u, toUpperChar c = [u] /\ is_AZ u = true /\ is_az u = false /\
            toLowerChar u = c.
Proof.
  intros H. repeat split.
  - apply negb_true_iff. revert c H. now apply az_implies.
  - apply Ascii.eqb_eq. revert c H.
    now apply (az_implies (fun x => Ascii.eqb (toLowerChar x) x)).
  - apply negb_true_iff. revert c H. now apply az_implies.
  - apply negb_true_iff. revert c H. now apply az_implies.
  - revert c H. now apply az_implies.
  - now apply az_upper.
Qed.

Lemma toLowerCase_cons c s :
  toLowerCase (c :: s) = toLowerChar c :: toLowerCase s.
Proof. reflexivity. Qed.

Lemma toLowerCase_app s t :
  toLowerCase (s ++ t) = toLowerCase s ++ toLowerCase t.
Proof. apply map_app. Qed.

Lemma az_word_lowered w : forallb is_az w = true -> toLowerCase w = w.
Proof.
  intros H. apply toLowerCase_id, forallb_forall. intros c Hc.
  rewrite forallb_forall in H. apply Ascii.eqb_eq.
  now apply az_facts, H.
Qed.

Lemma az_word_plain w :
  forallb is_az w = true -> insert_camel_hyphens w = w.
Proof.
  intros H. apply insert_camel_hyphens_id, no_AZ_no_camel_transition.
  rewrite forallb_forall in H. apply forallb_forall. intros c Hc.
  apply negb_true_iff. now apply az_facts, H.
Qed.

Lemma insert_camel_hyphens_word w rest :
  w <> [] -> forallb is_az w = true -> starts_with is_AZ rest = true ->
  insert_camel_hyphens (w ++ rest) = w ++ "-" :: insert_camel_hyphens rest.
Proof.
  intros Hne Hw Hr. induction w as [|c tl IH]; [congruence|].
  simpl in Hw. apply andb_true_iff in Hw as [Hc Htl].
  change ((c :: tl) ++ rest) with (c :: (tl ++ rest)).
  rewrite insert_camel_hyphens_cons, Hc. destruct tl as [|c' tl'].
  - simpl app. now rewrite Hr.
  - simpl in Htl. apply andb_true_iff in Htl as [Hc' Htl'].
    assert (starts_with is_AZ ((c' :: tl') ++ rest) = false) as ->.
    { simpl. now apply az_facts. }
    simpl andb. cbv iota. rewrite IH; [reflexivity|discriminate|].
    simpl. now rewrite Hc'.
Qed.

(** The words after the first, as [toCamelCase] writes them. *)
Lemma capitalized_words rest :
  Forall letter_word rest ->
  (rest <> [] ->
   starts_with is_AZ (concat (map (fun w => camel_word w 1) rest)) = true) /\
  toLowerCase
    (insert_camel_hyphens (concat (map (fun w => camel_word w 1) rest)))
  = join ["-"] rest.
Proof.
  induction 1 as [|w rest [Hlen Hw] Hrest [IHs IH]]; [split; [congruence|reflexivity]|].
  destruct w as [|c [|c' tl]]; simpl in Hlen; try lia.
  pose proof Hw as Hw'.
  change (is_az c && forallb is_az (c' :: tl) = true) in Hw'.
  apply andb_true_iff in Hw' as [Hc Htl].
  destruct (az_facts c Hc) as (_ & _ & _ & _ & _ & u & Hu & HuAZ & Huaz & Hul).
  assert (Ecap : camel_word (c :: c' :: tl) 1 = u :: c' :: tl).
  { unfold camel_word. rewrite (az_word_lowered _ Hw). simpl.
    now rewrite Hu. }
  simpl map. simpl concat. rewrite Ecap. split; [intros _; exact HuAZ|].
  change ((u :: c' :: tl) ++ ?x) with (u :: ((c' :: tl) ++ x)).
  rewrite insert_camel_hyphens_cons, Huaz. simpl andb. cbv iota.
  destruct rest as [|w' rest'].
  - simpl concat. rewrite app_nil_r, (az_word_plain _ Htl).
    rewrite (toLowerCase_cons u), Hul, (az_word_lowered _ Htl).
    reflexivity.
  - rewrite insert_camel_hyphens_word;
      [|discriminate|assumption|apply IHs; discriminate].
    rewrite (toLowerCase_cons u), toLowerCase_app, (toLowerCase_cons "-").
    rewrite Hul, (az_word_lowered _ Htl), IH. reflexivity.
Qed.

Lemma letter_word_ok p w :
  (forall c, is_az c = true -> p c = false) ->
  letter_word w -> word_ok p w.
Proof.
  intros Hp [Hlen Hw]. split.
  - destruct w; simpl in Hlen; [lia|discriminate].
  - rewrite forallb_forall in Hw. apply forallb_forall.
    intros c Hc. apply negb_true_iff, Hp, Hw, Hc.
Qed.

Lemma camel_of_letter_words ws :
  Forall letter_word ws ->
  toKebabCase (join [] (mapi camel_word ws)) = join ["-"] ws.
Proof.
  intros Hws. destruct Hws as [|w rest [Hlen Hw] Hrest]; [reflexivity|].
  assert (Hok : Forall (word_ok is_boundary) (w :: rest)).
  { constructor.
    - apply letter_word_ok; [|now split]. intros c Hc. now apply az_facts.
    - eapply Forall_impl; [exact Hrest|]. intros x Hx.
      apply letter_word_ok; [|assumption]. intros c Hc. now apply az_facts. }
  destruct (capitalized_words rest Hrest) as [Hs Hl].
  rewrite toKebabCase_words, join_nil. unfold mapi. simpl mapi_from.
  rewrite mapi_from_camel_word. simpl concat.
  assert (E : camel_word w 0 = w).
  { unfold camel_word. simpl. now apply az_word_lowered. }
  rewrite E.
  assert (Elow : toLowerCase
                   (insert_camel_hyphens
                      (w ++ concat (map (fun w => camel_word w 1) rest)))
                 = join ["-"] (w :: rest)).
  { destruct rest as [|w' rest'].
    - simpl concat. rewrite app_nil_r, (az_word_plain _ Hw).
      now apply az_word_lowered.
    - rewrite insert_camel_hyphens_word;
        [|destruct w; simpl in Hlen; [lia|discriminate]|assumption
         |apply Hs; discriminate].
      rewrite toLowerCase_app, (toLowerCase_cons "-").
      rewrite (az_word_lowered _ Hw), Hl. reflexivity. }
  rewrite Elow, split_join by (reflexivity || discriminate || assumption).
  now rewrite (filter_has_length_words is_boundary).
Qed.

Lemma letter_words_camel ws :
  Forall letter_word ws ->
  CaseUtils.toCamelCase (join ["-"] ws) = join [] (mapi camel_word ws) /\
  FewShot.toCamelCase (join ["-"] ws) = join [] (mapi camel_word ws).
Proof.
  intros Hws. split.
  - rewrite toCamelCase_words, words_of_join_by; [reflexivity|reflexivity| |].
    + eapply Forall_impl; [exact Hws|]. intros x Hx.
      apply letter_word_ok; [|assumption]. intros c Hc. now apply az_facts.
    + intros w c Hw Hc. rewrite List.Forall_forall in Hws.
      destruct (Hws w Hw) as [_ Haz]. rewrite forallb_forall in Haz.
      now apply az_facts, Haz.
  - unfold FewShot.toCamelCase. destruct ws as [|w rest]; [reflexivity|].
    rewrite split_join; [reflexivity|reflexivity|discriminate|].
    eapply Forall_impl; [exact Hws|]. intros x Hx.
    apply letter_word_ok; [|assumption]. intros c Hc. now apply az_facts.
Qed.

(** X23: kebab-case to camelCase and back is a round trip on words of
    lowercase letters: for words of at least two lowercase ASCII letters
    each, joined by hyphens, either [toCamelCase] followed by
    [toKebabCase] returns the string it started from. *)
Theorem X23_kebab_camel_round_trip (ws : list jsstring) :
  Forall letter_word ws ->
  toKebabCase (CaseUtils.toCamelCase (join ["-"] ws)) = join ["-"] ws /\
  toKebabCase (FewShot.toCamelCase (join ["-"] ws)) = join ["-"] ws.
Proof.
  intros Hws. destruct (letter_words_camel ws Hws) as [-> ->].
  split; now apply camel_of_letter_words.
Qed.

Lemma three_letter_words :
  Forall letter_word [str "vintage"; str "lamp"; str "no"].
Proof. repeat constructor; simpl; lia. Qed.

Lemma X23_kebab_camel_round_trip_witness :
  Forall letter_word [str "vintage"; str "lamp"; str "no"] /\
  toKebabCase
    (CaseUtils.toCamelCase (join ["-"] [str "vintage"; str "lamp"; str "no"]))
  = join ["-"] [str "vintage"; str "lamp"; str "no"] /\
  toKebabCase
    (FewShot.toCamelCase (join ["-"] [str "vintage"; str "lamp"; str "no"]))
  = join ["-"] [str "vintage"; str "lamp"; str "no"].
Proof.
  split; [exact three_letter_words|].
  apply (X23_kebab_camel_round_trip [str "vintage"; str "lamp"; str "no"]).
  exact three_letter_words.
Defined.

(** ** Converting a camelCase result again *)

Lemma words_of_alnum_word w :
  forallb is_alnum w = true ->
  CaseUtils.words_of w = match w with [] => [] | _ :: _ => [w] end.
Proof.
  intros H. destruct w as [|c tl]; [reflexivity|].
  rewrite forallb_forall in H.
  assert (Hs : forallb (fun x => negb (CaseUtils.is_separator x)) (c :: tl)
               = true).
  { apply forallb_forall. intros x Hx. apply negb_true_iff.
    now apply alnum_kept, H. }
  unfold CaseUtils.words_of. rewrite remove_all_id.
  - rewrite strip_ends_id
      by (now apply starts_with_forallb_neg || now apply ends_with_forallb_neg).
    now rewrite split_word.
  - apply forallb_forall. intros x Hx. rewrite negb_involutive.
    now apply alnum_kept, H.
Qed.

(** X24: applied to a result of the documented [toCamelCase], both it and
    [toDotCase] return that result lowercased: a camelCase string is read
    as a single word, and the capitals that marked its words are lost. *)
Theorem X24_toCamelCase_again (s : jsstring) :
  CaseUtils.toCamelCase (CaseUtils.toCamelCase s)
  = toLowerCase (CaseUtils.toCamelCase s) /\
  CaseUtils.toDotCase (CaseUtils.toCamelCase s)
  = toLowerCase (CaseUtils.toCamelCase s).
Proof.
  rewrite (toCamelCase_words (CaseUtils.toCamelCase s)).
  rewrite (toDotCase_words (CaseUtils.toCamelCase s)).
  rewrite (words_of_alnum_word _ (toCamelCase_alnum s)).
  destruct (CaseUtils.toCamelCase s); split; reflexivity.
Qed.

(** * Titles, slugs and the deletion of comments *)

(** ** Deleting a comment as its author *)

(** C1: [deleteComment] is permitted only to the author of the comment:
    for every existing comment and every requestor, a requestor who is
    not the author gets [Forbidden] and the comments are left as they
    were; the author's request deletes the comment. *)
Theorem C1_deleteComment_author_only
  (comments : list Comments.Comment) (requestorId commentId : nat)
  (comment : Comments.Comment) :
  List.find (Comments.has_id commentId) comments = Some comment ->
  (requestorId <> Comments.author comment ->
   Discussion.deleteComment requestorId commentId comments
   = (comments, Discussion.Failed Discussion.Forbidden)) /\
  (requestorId = Comments.author comment ->
   Discussion.deleteComment requestorId commentId comments
   = (Comments.remove_first commentId comments, Discussion.Deleted)).
Proof.
  intros Hc. unfold Discussion.deleteComment. rewrite Hc.
  split; intros H.
  - now apply Nat.eqb_neq in H as ->.
  - now apply Nat.eqb_eq in H as ->.
Qed.

Lemma C1_deleteComment_author_only_witness :
  List.find (Comments.has_id 8) (Comments.docs Samples2.three_comments)
  = Some Samples2.comment_of_user2 /\
  (3 <> Comments.author Samples2.comment_of_user2 ->
   Discussion.deleteComment 3 8 (Comments.docs Samples2.three_comments)
   = (Comments.docs Samples2.three_comments,
      Discussion.Failed Discussion.Forbidden)) /\
  (3 = Comments.author Samples2.comment_of_user2 ->
   Discussion.deleteComment 3 8 (Comments.docs Samples2.three_comments)
   = (Comments.remove_first 8 (Comments.docs Samples2.three_comments),
      Discussion.Deleted)).
Proof.
  split; [reflexivity|].
  apply (C1_deleteComment_author_only
           (Comments.docs Samples2.three_comments) 3 8
           Samples2.comment_of_user2).
  reflexivity.
Defined.

(** ** [toKebabCase] on titles *)





(** ** The slug of a title without letters and digits *)






(** ** [addNumbers]: the error thrown *)

(** X22: the error [addNumbers] throws names the first check that fails,
    in the order null or undefined, type, NaN.  With a null or undefined
    argument the null-or-undefined error is thrown when both arguments can
    be printed into its message, and otherwise (a Symbol, an object that
    has no string form) the error raised while the message is built;
    the type error is thrown only when neither argument is null or
    undefined and one is not a number; the NaN error only when both are
    numbers. *)
Theorem X22_addNumbers_throws (a b : Numbers.value) (e : Numbers.error) :
  Numbers.addNumbers a b = Numbers.Thrown e ->
  ((a = Numbers.VNull \/ a = Numbers.VUndefined \/
    b = Numbers.VNull \/ b = Numbers.VUndefined) /\
   ((Numbers.prints a = true /\ Numbers.prints b = true /\
     e = Numbers.NullOrUndefined a b) \/
    ((Numbers.prints a = false \/ Numbers.prints b = false) /\
     e = Numbers.MessageNotBuilt))) \/
  (e = Numbers.NotNumbers (Numbers.typeof a) (Numbers.typeof b) /\
   a <> Numbers.VNull /\ a <> Numbers.VUndefined /\
   b <> Numbers.VNull /\ b <> Numbers.VUndefined /\
   (Numbers.typeof a <> "number"%string \/ Numbers.typeof b <> "number"%string)) \/
  (exists x y,
     a = Numbers.VNumber x /\ b = Numbers.VNumber y /\
     e = Numbers.NaNNotAllowed x y /\
     (PrimFloat.is_nan x = true \/ PrimFloat.is_nan y = true)).
Proof.
  intros H.
  destruct a as [| | |x| | | |pa|pa], b as [| | |y| | | |pb|pb];
    try destruct pa; try destruct pb;
    try (injection H as <-;
         first [ left; split; [auto 6|];
                 first [ left; repeat split; reflexivity
                       | right; split; [auto|reflexivity] ]
               | right; left; repeat split; try discriminate;
                 first [left; discriminate | right; discriminate] ]).
  right. right. rewrite addNumbers_numbers in H.
  destruct (PrimFloat.is_nan x) eqn:Hx; simpl in H.
  - injection H as <-. exists x, y. auto.
  - destruct (PrimFloat.is_nan y) eqn:Hy; [|discriminate].
    injection H as <-. exists x, y. auto.
Qed.

Lemma symbol_and_null_throws :
  Numbers.addNumbers Numbers.VSymbol Numbers.VNull
  = Numbers.Thrown Numbers.MessageNotBuilt.
Proof. reflexivity. Qed.

Lemma X22_addNumbers_throws_witness :
  Numbers.addNumbers Numbers.VSymbol Numbers.VNull
  = Numbers.Thrown Numbers.MessageNotBuilt /\
  (((Numbers.VSymbol = Numbers.VNull \/ Numbers.VSymbol = Numbers.VUndefined \/
     Numbers.VNull = Numbers.VNull \/ Numbers.VNull = Numbers.VUndefined) /\
    ((Numbers.prints Numbers.VSymbol = true /\
      Numbers.prints Numbers.VNull = true /\
      Numbers.MessageNotBuilt
      = Numbers.NullOrUndefined Numbers.VSymbol Numbers.VNull) \/
     ((Numbers.prints Numbers.VSymbol = false \/
       Numbers.prints Numbers.VNull = false) /\
      Numbers.MessageNotBuilt = Numbers.MessageNotBuilt))) \/
   (Numbers.MessageNotBuilt
    = Numbers.NotNumbers (Numbers.typeof Numbers.VSymbol)
        (Numbers.typeof Numbers.VNull) /\
    Numbers.VSymbol <> Numbers.VNull /\
    Numbers.VSymbol <> Numbers.VUndefined /\
    Numbers.VNull <> Numbers.VNull /\ Numbers.VNull <> Numbers.VUndefined /\
    (Numbers.typeof Numbers.VSymbol <> "number"%string \/
     Numbers.typeof Numbers.VNull <> "number"%string)) \/
   (exists x y,
      Numbers.VSymbol = Numbers.VNumber x /\
      Numbers.VNull = Numbers.VNumber y /\
      Numbers.MessageNotBuilt = Numbers.NaNNotAllowed x y /\
      (PrimFloat.is_nan x = true \/ PrimFloat.is_nan y = true))).
Proof.
  split; [exact symbol_and_null_throws|].
  apply (X22_addNumbers_throws Numbers.VSymbol Numbers.VNull).
  exact symbol_and_null_throws.
Defined.

(** ** [toKebabCase]: the empty result *)

(** X25: [toKebabCase] returns the empty string exactly for the inputs
    made only of whitespace, underscores and hyphens (the empty string
    among them); any other character, punctuation included, is kept and
    makes the result non-empty. *)
Theorem X25_toKebabCase_empty_result (s : jsstring) :
  toKebabCase s = [] <-> forallb is_boundary s = true.
Proof.
  split.
  - apply toKebabCase_nil.
  - apply toKebabCase_of_separators.
Qed.
